(** * Text metrics of the article-analysis scripts

    A shallow embedding of the metric computation of [text_analysis.py]
    (lexicon variant) and [txt_analysis_berts.py] (model variant), with the
    properties of the score vector proved against it.

    Modelling conventions.
    - A Python [str] is a [string]; a character is a code point in 0..255,
      classified as Python classifies the Latin-1 block of Unicode.
    - A Python [int] is a [Z].  A Python [float] is a [Q]: the binary64
      operations are idealised as exact rational operations, so the theorems
      speak about the formulas the code evaluates, not about rounding.
    - An exception is a value of [exn]; code that may raise lives in the
      [result] monad and a [try ... except Exception] is a [match] on it.
    - The module-level sets [stop_words], [positive_words], [negative_words]
      are [gset string] parameters; the pretrained classifier and the page
      fetcher are function parameters. *)

From Stdlib Require Import ZArith QArith Qabs Lqa Lia List Ascii String.
From stdpp Require Import base decidable gmap strings list.

Open Scope string_scope.

(** ** Python primitives *)

Module Py.

(** *** Exceptions *)

Inductive exn : Type :=
| ZeroDivisionError
| IndexError
| ExternalError (msg : string).

Inductive result (A : Type) : Type :=
| Ok (a : A)
| Raise (e : exn).
Arguments Ok {A} a.
Arguments Raise {A} e.

Definition bind {A B} (r : result A) (k : A → result B) : result B :=
  match r with
  | Ok a => k a
  | Raise e => Raise e
  end.

(** [try: body except Exception: handler] *)
Definition try_except {A} (body : result A) (handler : exn → A) : A :=
  match body with
  | Ok a => a
  | Raise e => handler e
  end.

(** *** Numbers *)

(** An element of a score vector: the lists the code builds mix [int]
    and [float] entries. *)
Inductive value : Type :=
| VInt (n : Z)
| VFloat (q : Q).

Definition to_float (n : Z) : Q := inject_Z n.

(** [a / b] on floats. *)
Definition truediv (a b : Q) : result Q :=
  if Qeq_bool b 0 then Raise ZeroDivisionError else Ok (a / b)%Q.

(** [a / b] on ints: true division, the quotient is a float. *)
Definition int_truediv (a b : Z) : result Q :=
  if (b =? 0)%Z then Raise ZeroDivisionError
  else Ok (to_float a / to_float b)%Q.

(** [sum(xs)] over ints and over floats. *)
Definition int_sum (xs : list Z) : Z := fold_left Z.add xs 0%Z.
Definition float_sum (xs : list Q) : Q := fold_left Qplus xs 0%Q.

(** [len(xs)] *)
Definition len {A} (xs : list A) : Z := Z.of_nat (length xs).

(** [not xs] for a list. *)
Definition is_empty {A} (xs : list A) : bool :=
  match xs with
  | [] => true
  | _ :: _ => false
  end.

(** *** Characters *)

Definition code (c : ascii) : N := N_of_ascii c.

Definition between (lo hi : N) (c : ascii) : bool :=
  ((lo <=? code c) && (code c <=? hi))%N.

(** [[A-Z]] *)
Definition ascii_upper (c : ascii) : bool := between 65 90 c.

(** Characters changed by [str.lower]: A-Z and the Latin-1 capitals
    (U+00C0..U+00DE without the multiplication sign U+00D7). *)
Definition char_isupper (c : ascii) : bool :=
  between 65 90 c || between 192 214 c || between 216 222 c.

Definition char_lower (c : ascii) : ascii :=
  if char_isupper c then ascii_of_N (code c + 32) else c.

(** [c.isalnum()]: letters, decimal digits, and the characters with a
    digit or numeric value (superscripts and vulgar fractions). *)
Definition char_isalnum (c : ascii) : bool :=
  between 48 57 c || between 65 90 c || between 97 122 c
  || between 170 170 c || between 178 179 c || between 181 181 c
  || between 185 186 c || between 188 190 c
  || between 192 214 c || between 216 246 c || between 248 255 c.

(** [\s] and the characters removed by [str.strip()]. *)
Definition char_isspace (c : ascii) : bool :=
  between 9 13 c || between 28 32 c || between 133 133 c
  || between 160 160 c.

(** [\w] *)
Definition re_word (c : ascii) : bool :=
  char_isalnum c || between 95 95 c.

(** [[.!?]] *)
Definition re_terminal (c : ascii) : bool :=
  between 46 46 c || between 33 33 c || between 63 63 c.

(** [[aeiouy]] *)
Definition re_vowel (c : ascii) : bool :=
  between 97 97 c || between 101 101 c || between 105 105 c
  || between 111 111 c || between 117 117 c || between 121 121 c.

(** *** Strings *)

Fixpoint str_map (f : ascii → ascii) (s : string) : string :=
  match s with
  | EmptyString => EmptyString
  | String c s' => String (f c) (str_map f s')
  end.

Fixpoint str_forall (p : ascii → bool) (s : string) : bool :=
  match s with
  | EmptyString => true
  | String c s' => p c && str_forall p s'
  end.

(** [s.lower()] *)
Definition str_lower (s : string) : string := str_map char_lower s.

(** [s.isalnum()]: false on the empty string. *)
Definition str_isalnum (s : string) : bool :=
  match s with
  | EmptyString => false
  | String _ _ => str_forall char_isalnum s
  end.

(** [len(s)] *)
Definition str_len (s : string) : Z := Z.of_nat (String.length s).

(** [s.endswith(suffix)] *)
Definition str_endswith (s suffix : string) : bool :=
  let n := String.length s in
  let k := String.length suffix in
  (k <=? n)%nat && String.eqb (substring (n - k) k s) suffix.

Fixpoint str_lstrip (s : string) : string :=
  match s with
  | EmptyString => EmptyString
  | String c s' => if char_isspace c then str_lstrip s' else s
  end.

Definition str_rstrip (s : string) : string :=
  String.rev (str_lstrip (String.rev s)).

(** [s.strip()] *)
Definition str_strip (s : string) : string := str_rstrip (str_lstrip s).

Fixpoint str_drop (n : nat) (s : string) : string :=
  match n, s with
  | S k, String _ s' => str_drop k s'
  | _, _ => s
  end.

(** Length of the longest prefix of [s] whose characters satisfy [p]:
    what a greedy [[...]+] consumes. *)
Fixpoint span_len (p : ascii → bool) (s : string) : nat :=
  match s with
  | String c s' => if p c then S (span_len p s') else 0
  | EmptyString => 0
  end.

(** [' '.join(parts)] *)
Fixpoint str_join (sep : string) (parts : list string) : string :=
  match parts with
  | [] => ""
  | [p] => p
  | p :: rest => p ++ sep ++ str_join sep rest
  end.

(** *** The regular expressions of the scripts *)

Definition flush (cur : string) : list string :=
  match cur with
  | EmptyString => []
  | String _ _ => [cur]
  end.

(** [re.findall(r'\b\w+\b', s)]: the scan is left to right; [\w+] is
    greedy, a match can only start where a run of word characters starts
    and ends where it ends, so the matches are the maximal runs of word
    characters.  [cur] is the run being read. *)
Fixpoint word_runs (cur : string) (s : string) : list string :=
  match s with
  | EmptyString => flush cur
  | String c s' =>
      if re_word c then word_runs (cur ++ String c "") s'
      else flush cur ++ word_runs "" s'
  end.

Definition re_findall_words (s : string) : list string := word_runs "" s.

(** [re.findall(r'[aeiouy]', s)]: one match per vowel character. *)
Fixpoint re_findall_vowels (s : string) : list string :=
  match s with
  | EmptyString => []
  | String c s' =>
      if re_vowel c then String c "" :: re_findall_vowels s'
      else re_findall_vowels s'
  end.

(** A match of [[.!?]+\s+(?=[A-Z])] at the head of [s]: the greedy run of
    terminal marks, the greedy run of white space, then an upper-case
    ASCII letter that is looked at but not consumed.  The two classes are
    disjoint from each other and from [[A-Z]], so backtracking cannot
    produce a match that the greedy runs miss.  Returns the number of
    characters consumed. *)
Definition sentence_break (s : string) : option nat :=
  let marks := span_len re_terminal s in
  let blanks := span_len char_isspace (str_drop marks s) in
  match str_drop (marks + blanks) s with
  | String c _ =>
      if (0 <? marks)%nat && (0 <? blanks)%nat && ascii_upper c
      then Some (marks + blanks)%nat else None
  | EmptyString => None
  end.

(** [re.split(r'[.!?]+\s+(?=[A-Z])', s)]: [skip] counts the characters of
    the current separator still to be passed over, [cur] is the piece
    being read. *)
Fixpoint split_scan (skip : nat) (cur : string) (s : string) : list string :=
  match s with
  | EmptyString => [cur]
  | String c s' =>
      match skip with
      | S k => split_scan k cur s'
      | O =>
          match sentence_break s with
          | Some n => cur :: split_scan (pred n) "" s'
          | None => split_scan 0 (cur ++ String c "") s'
          end
      end
  end.

Definition re_split_sentences (s : string) : list string :=
  split_scan 0 "" s.

(** [re.findall(r'\b(I|we|my|ours|us)\b', s, re.I)]: the alternatives
    consist of word characters and stand between two [\b], so a match is
    a maximal run of word characters equal, up to case, to one of them. *)
Definition pronoun_alternatives : list string :=
  ["i"; "we"; "my"; "ours"; "us"].

Definition re_findall_pronouns (s : string) : list string :=
  List.filter
    (λ run, existsb (String.eqb (str_lower run)) pronoun_alternatives)
    (re_findall_words s).

End Py.

Import Py.

#[export] Instance result_ret : MRet result := λ A a, Ok a.
#[export] Instance result_bind : MBind result := λ A B k r, bind r k.

(** ** Functions shared by the two scripts

    [simple_word_tokenize], [simple_sentence_tokenize], [syllable_count]
    and [extract_article_text] have the same body in both files. *)

Module Text.

Definition simple_word_tokenize (text : string) : list string :=
  re_findall_words (str_lower text).

Definition nonempty (s : string) : bool :=
  match s with
  | EmptyString => false
  | String _ _ => true
  end.

(** [[s.strip() for s in sentences if s.strip()]] *)
Definition simple_sentence_tokenize (text : string) : list string :=
  let sentences := re_split_sentences text in
  map str_strip (List.filter (λ s, nonempty (str_strip s)) sentences).

Definition syllable_count (word : string) : Z :=
  let word := str_lower word in
  let count := len (re_findall_vowels word) in
  let count :=
    if str_endswith word "es" || str_endswith word "ed"
    then (count - 1)%Z else count in
  Z.max 1 count.

(** [re.findall(r'\b(I|we|my|ours|us)\b', text, re.I)], counted. *)
Definition personal_pronoun_count (text : string) : Z :=
  len (re_findall_pronouns text).

Section Extraction.

(** The page behind a URL as [requests] and [BeautifulSoup] deliver it:
    the stripped text of the first [h1], if there is one, and the
    stripped texts of the [p] elements; [Raise] when the request or the
    parse fails. *)
Variable fetch_page : string → result (option string * list string).

Definition extract_article_text (url : string) : string :=
  try_except
    ('(heading, paragraphs) ← fetch_page url;
     let title := default "" heading in
     let content := str_join " " paragraphs in
     Ok (title ++ " " ++ content))
    (λ _, "").

End Extraction.

End Text.

(** ** The lexicon variant: text_analysis.py *)

Module Lexicon.
Import Text.

Definition POSITIVE_WORDS : list string :=
  ["good"; "great"; "excellent"; "positive"; "outstanding"; "wonderful";
   "amazing"; "awesome"; "superb"; "fantastic"; "brilliant";
   "exceptional"; "marvelous"; "terrific"; "phenomenal"; "impressive";
   "remarkable"; "splendid"; "fabulous"; "delightful"; "perfect";
   "magnificent"; "extraordinary"; "superior"; "admirable"; "favorable";
   "beneficial"; "effective"; "efficient"; "successful"].

Definition NEGATIVE_WORDS : list string :=
  ["bad"; "poor"; "negative"; "terrible"; "horrible"; "awful";
   "unpleasant"; "disappointing"; "inferior"; "inadequate";
   "unsatisfactory"; "unfavorable"; "deficient"; "defective";
   "faulty"; "flawed"; "problematic"; "ineffective"; "inefficient";
   "unsuccessful"; "fail"; "failure"; "worse"; "worst"; "mediocre";
   "subpar"; "disappointing"; "frustrating"; "concerning";
   "troublesome"].

Definition STOPWORDS : list string :=
  ["i"; "me"; "my"; "myself"; "we"; "our"; "ours"; "ourselves"; "you";
   "your"; "yours"; "yourself"; "yourselves"; "he"; "him"; "his";
   "himself"; "she"; "her"; "hers"; "herself"; "it"; "its"; "itself";
   "they"; "them"; "their"; "theirs"; "themselves"; "what"; "which";
   "who"; "whom"; "this"; "that"; "these"; "those"; "am"; "is"; "are";
   "was"; "were"; "be"; "been"; "being"; "have"; "has"; "had";
   "having"; "do"; "does"; "did"; "doing"; "would"; "should"; "could";
   "might"; "must"; "shall"; "will"; "can"; "a"; "an"; "the"; "and";
   "but"; "if"; "or"; "because"; "as"; "until"; "while"; "of"; "at";
   "by"; "for"; "with"; "about"; "against"; "between"; "into";
   "through"; "during"; "before"; "after"; "above"; "below"; "to";
   "from"; "up"; "down"; "in"; "out"; "on"; "off"; "over"; "under";
   "again"; "further"; "then"; "once"; "here"; "there"; "when";
   "where"; "why"; "how"].

(** [0.000001] *)
Definition epsilon : Q := 1 # 1000000.

Section Scores.

(** The globals that [main] assigns from [load_stopwords] and
    [load_master_dictionary] before the first call. *)
Context (stop_words positive_words negative_words : gset string).

Definition cleaned_words_of (text : string) : list string :=
  List.filter
    (λ word, str_isalnum word && negb (bool_decide (word ∈ stop_words)))
    (simple_word_tokenize text).

(** [sum(1 for word in words if word in lexicon)] *)
Definition count_hits (lexicon : gset string) (words : list string) : Z :=
  int_sum
    (map (λ _, 1%Z) (List.filter (λ word, bool_decide (word ∈ lexicon)) words)).

Definition avg_syllable_per_word (words : list string) : result value :=
  if is_empty words then Ok (VInt 0)
  else
    q ← int_truediv (int_sum (map syllable_count words)) (len words);
    Ok (VFloat q).

(** The body of the [try] block of [calculate_scores]. *)
Definition calculate_scores_body (text : string) : result (list value) :=
  let cleaned_words := cleaned_words_of text in
  let sentences := simple_sentence_tokenize text in
  if is_empty cleaned_words || is_empty sentences
  then Ok (replicate 13 (VInt 0))
  else
    let positive_score := count_hits positive_words cleaned_words in
    let negative_score := count_hits negative_words cleaned_words in
    polarity_score ←
      truediv (to_float (positive_score - negative_score))
              (to_float (positive_score + negative_score) + epsilon);
    subjectivity_score ←
      truediv (to_float (positive_score + negative_score))
              (to_float (len cleaned_words) + epsilon);
    avg_sentence_length ← int_truediv (len cleaned_words) (len sentences);
    let complex_words :=
      List.filter (λ word, (2 <? syllable_count word)%Z) cleaned_words in
    percentage_complex_words ←
      int_truediv (len complex_words) (len cleaned_words);
    let fog_index :=
      ((4 # 10) * (avg_sentence_length + percentage_complex_words))%Q in
    let word_count := len cleaned_words in
    let personal_pronouns := personal_pronoun_count text in
    avg_word_length ←
      int_truediv (int_sum (map str_len cleaned_words)) (len cleaned_words);
    avg_syllables ← avg_syllable_per_word cleaned_words;
    Ok [ VInt positive_score;
         VInt negative_score;
         VFloat polarity_score;
         VFloat subjectivity_score;
         VFloat avg_sentence_length;
         VFloat percentage_complex_words;
         VFloat fog_index;
         VFloat avg_sentence_length;
         VInt (len complex_words);
         VInt word_count;
         avg_syllables;
         VInt personal_pronouns;
         VFloat avg_word_length ].

Definition calculate_scores (text : string) : list value :=
  try_except (calculate_scores_body text) (λ _, replicate 13 (VInt 0)).

End Scores.

End Lexicon.

(** ** The model variant: txt_analysis_berts.py *)

Module Bert.
Import Text.

Section Scores.

(** The pretrained classifier as [get_bert_sentiment] uses it: the text
    is encoded, the model is run and [softmax] is applied; the result
    is [scores[0]], the probabilities of the star ratings 1 to 5.
    [Raise] when the tokenizer or the model raises. *)
Variable star_probabilities : string → result (list Q).

(** [scores[0][2]] *)
Definition index (row : list Q) (i : nat) : result Q :=
  match row !! i with
  | Some x => Ok x
  | None => Raise IndexError
  end.

(** The body of the [try] block of [get_bert_sentiment]. *)
Definition get_bert_sentiment_body (text : string) : result (Q * Q * Q) :=
  row ← star_probabilities text;
  let positive_score := float_sum (drop 3 row) in
  let negative_score := float_sum (take 2 row) in
  neutral_score ← index row 2;
  compound_score ←
    truediv (positive_score - negative_score)
            (positive_score + negative_score + neutral_score);
  Ok (positive_score, negative_score, compound_score).

Definition get_bert_sentiment (text : string) : Q * Q * Q :=
  try_except (get_bert_sentiment_body text) (λ _, (0, 0, 0)%Q).

Definition cleaned_words_of (text : string) : list string :=
  List.filter str_isalnum (simple_word_tokenize text).

(** The body of the [try] block of [calculate_scores]. *)
Definition calculate_scores_body (text : string) : result (list value) :=
  let cleaned_words := cleaned_words_of text in
  let sentences := simple_sentence_tokenize text in
  if is_empty cleaned_words || is_empty sentences
  then Ok (replicate 13 (VInt 0))
  else
    let '(positive_score, negative_score, polarity_score) :=
      get_bert_sentiment text in
    let subjectivity_score := Qabs polarity_score in
    avg_sentence_length ← int_truediv (len cleaned_words) (len sentences);
    let complex_words :=
      List.filter (λ word, (2 <? syllable_count word)%Z) cleaned_words in
    percentage_complex_words ←
      int_truediv (len complex_words) (len cleaned_words);
    let fog_index :=
      ((4 # 10) * (avg_sentence_length + percentage_complex_words))%Q in
    let word_count := len cleaned_words in
    let personal_pronouns := personal_pronoun_count text in
    avg_word_length ←
      int_truediv (int_sum (map str_len cleaned_words)) (len cleaned_words);
    avg_syllables ←
      int_truediv (int_sum (map syllable_count cleaned_words))
                  (len cleaned_words);
    Ok [ VFloat positive_score;
         VFloat negative_score;
         VFloat polarity_score;
         VFloat subjectivity_score;
         VFloat avg_sentence_length;
         VFloat percentage_complex_words;
         VFloat fog_index;
         VFloat avg_sentence_length;
         VInt (len complex_words);
         VInt word_count;
         VFloat avg_syllables;
         VInt personal_pronouns;
         VFloat avg_word_length ].

Definition calculate_scores (text : string) : list value :=
  try_except (calculate_scores_body text) (λ _, replicate 13 (VInt 0)).

End Scores.

End Bert.

(** ** The per-record loop of [main]

    The loop has the same text in both scripts.  It is stated over the two
    calls it makes, either of which may raise as far as the loop's own
    [try] is concerned. *)

Module Batch.

(** A spreadsheet cell. *)
Inductive cell : Type :=
| CNone
| CNum (v : value)
| CText (s : string).

(** A row of the input sheet, with its columns [URL_ID] and [URL]. *)
Record record : Type := { URL_ID : cell; URL : string }.

Section Loop.

Variable extract_article_text : string → result string.
Variable calculate_scores : string → result (list value).

(** [[row['URL_ID'], url] + [None] * 13] *)
Definition null_row (row : record) : list cell :=
  ([URL_ID row; CText (URL row)] ++ replicate 13 CNone)%list.

(** The body of the [try] block of one iteration; its value is the row
    appended to [results]. *)
Definition process_record_body (row : record) : result (list cell) :=
  let url := URL row in
  article_text ← extract_article_text url;
  if Text.nonempty article_text
  then
    scores ← calculate_scores article_text;
    Ok ([URL_ID row; CText url] ++ map CNum scores)%list
  else Ok (null_row row).

Definition process_record (row : record) : list cell :=
  try_except (process_record_body row) (λ _, null_row row).

(** [for index, row in df.iterrows(): ... results.append(...)] *)
Definition main_loop (df : list record) : list (list cell) :=
  fold_left (λ results row, (results ++ [process_record row])%list) df [].

End Loop.

(** The loop of text_analysis.py. *)
Definition lexicon_main_loop
    (fetch_page : string → result (option string * list string))
    (stop_words positive_words negative_words : gset string)
    : list record → list (list cell) :=
  main_loop
    (λ url, Ok (Text.extract_article_text fetch_page url))
    (λ text,
       Ok (Lexicon.calculate_scores
             stop_words positive_words negative_words text)).

(** The loop of txt_analysis_berts.py. *)
Definition bert_main_loop
    (fetch_page : string → result (option string * list string))
    (star_probabilities : string → result (list Q))
    : list record → list (list cell) :=
  main_loop
    (λ url, Ok (Text.extract_article_text fetch_page url))
    (λ text, Ok (Bert.calculate_scores star_probabilities text)).

End Batch.

(** ** Writing the results back: the last loop of [main] *)

Module Sheet.
Import Batch.

(** [enumerate(xs, start)] *)
Fixpoint enumerate {A} (start : nat) (xs : list A) : list (nat * A) :=
  match xs with
  | [] => []
  | x :: xs' => (start, x) :: enumerate (S start) xs'
  end.

Section Write.

(** The work sheet of [openpyxl] and its
    [sheet.cell(row=i, column=j, value=value)]. *)
Context {sheet : Type} (set_cell : sheet → nat → nat → cell → sheet).

(** [for i, result in enumerate(results, start=2):
       for j, value in enumerate(result, start=1): sheet.cell(...)] *)
Definition write_results (sh : sheet) (results : list (list cell)) : sheet :=
  fold_left
    (λ sh '(i, result),
       fold_left (λ sh '(j, value), set_cell sh i j value)
         (enumerate 1 result) sh)
    (enumerate 2 results) sh.

End Write.

(** The calls of [sheet.cell] in the order the two loops make them: the
    loops run on a sheet that only records its calls. *)
Definition cell_writes (results : list (list cell)) : list (nat * nat * cell) :=
  write_results (λ trace i j value, (trace ++ [(i, j, value)])%list) [] results.

End Sheet.

(** ** Loading the word lists: text_analysis.py *)

Module Files.

(** The characters at which [str.splitlines] ends a line: line feed,
    vertical tab, form feed, carriage return, the file, group and
    record separators, and NEL (U+0085). *)
Definition line_boundary (c : ascii) : bool :=
  between 10 13 c || between 28 30 c || between 133 133 c.

(** [s.splitlines()]: a line ends at a boundary character, which is
    dropped; a carriage return followed by a line feed is one boundary;
    what follows the last boundary is a line only if it is not empty.
    [after_cr] says that the previous character was a carriage return,
    [cur] is the line being read. *)
Fixpoint splitlines_scan (after_cr : bool) (cur : string) (s : string)
    : list string :=
  match s with
  | EmptyString => flush cur
  | String c s' =>
      if after_cr && between 10 10 c then splitlines_scan false cur s'
      else if line_boundary c
           then cur :: splitlines_scan (between 13 13 c) "" s'
           else splitlines_scan false (cur ++ String c "") s'
  end.

Definition str_splitlines (s : string) : list string :=
  splitlines_scan false "" s.

(** The line feed that separates the words in the string constants. *)
Definition newline : string := String (ascii_of_N 10) "".

(** The string constants [POSITIVE_WORDS], [NEGATIVE_WORDS] and
    [STOPWORDS] of the script: the words listed in [Lexicon], one per
    line, with no line feed after the last. *)
Definition POSITIVE_WORDS_text : string :=
  str_join newline Lexicon.POSITIVE_WORDS.
Definition NEGATIVE_WORDS_text : string :=
  str_join newline Lexicon.NEGATIVE_WORDS.
Definition STOPWORDS_text : string :=
  str_join newline Lexicon.STOPWORDS.

(** [set(s.splitlines())] *)
Definition line_set (s : string) : gset string :=
  list_to_set (str_splitlines s).

Section Load.

(** The file system as the loaders see it.  [path_join] is
    [os.path.join], [listdir] is [os.listdir], and [read_text p] is the
    text that [open(p, 'r', encoding='utf-8')] followed by [f.read()]
    delivers; the last two raise when the operating system or the
    decoder does. *)
Context {path : Type}.
Variable path_join : path → string → path.
Variable listdir : path → result (list string).
Variable read_text : path → result string.

(** The body of the [try] block of [load_stopwords]. *)
Definition load_stopwords_body (dir : path) : result (gset string) :=
  files ← listdir dir;
  fold_left
    (λ acc file,
       stop_words ← acc;
       let file_path := path_join dir file in
       content ← read_text file_path;
       Ok (stop_words ∪ line_set content))
    files (Ok ∅).

Definition load_stopwords (dir : path) : gset string :=
  try_except (load_stopwords_body dir) (λ _, line_set STOPWORDS_text).

(** The body of the [try] block of [load_master_dictionary]. *)
Definition load_master_dictionary_body (dir : path)
    : result (gset string * gset string) :=
  let pos_path := path_join dir "positive-words.txt" in
  let neg_path := path_join dir "negative-words.txt" in
  content ← read_text pos_path;
  let positive_words := line_set content in
  content ← read_text neg_path;
  let negative_words := line_set content in
  Ok (positive_words, negative_words).

Definition load_master_dictionary (dir : path) : gset string * gset string :=
  try_except (load_master_dictionary_body dir)
    (λ _, (line_set POSITIVE_WORDS_text, line_set NEGATIVE_WORDS_text)).

End Load.

End Files.

(** ** The word list files on disk: [create_word_lists] and the start
    of [main]

    A path is the list of its components below the working directory;
    the file system maps the paths that exist to a directory or to a
    file with its text.  Permissions, links and encodings are not
    modelled: an operation raises only for the reasons written out
    here. *)

Module Disk.
Import Files.

Inductive node : Type :=
| File (content : string)
| Dir.

Abbreviation fs := (gmap (list string) node).

(** [os.path.join(p, name)] *)
Definition path_join (p : list string) (name : string) : list string :=
  (p ++ [name])%list.

(** [os.path.exists(p)] *)
Definition path_exists (disk : fs) (p : list string) : bool :=
  match disk !! p with
  | Some _ => true
  | None => false
  end.

(** [p] is a directory; the working directory always is. *)
Definition is_dir (disk : fs) (p : list string) : bool :=
  match p, disk !! p with
  | [], _ => true
  | _, Some Dir => true
  | _, _ => false
  end.

(** [os.makedirs(p, exist_ok=True)]: the components below [done] are
    created one after the other; a component that is a file raises. *)
Fixpoint makedirs_from (disk : fs) (done rest : list string) : result fs :=
  match rest with
  | [] => Ok disk
  | name :: rest' =>
      let p := path_join done name in
      match disk !! p with
      | Some (File _) => Raise (ExternalError "FileExistsError")
      | Some Dir => makedirs_from disk p rest'
      | None => makedirs_from (<[p := Dir]> disk) p rest'
      end
  end.

Definition makedirs (disk : fs) (p : list string) : result fs :=
  makedirs_from disk [] p.

(** [open(p, 'w', encoding='utf-8')] followed by [f.write(content)]. *)
Definition write_text (disk : fs) (p : list string) (content : string)
    : result fs :=
  if is_dir disk p then Raise (ExternalError "IsADirectoryError")
  else if is_dir disk (removelast p)
       then Ok (<[p := File content]> disk)
       else Raise (ExternalError "FileNotFoundError").

(** [open(p, 'r', encoding='utf-8')] followed by [f.read()]. *)
Definition read_text (disk : fs) (p : list string) : result string :=
  match disk !! p with
  | Some (File content) => Ok content
  | _ => Raise (ExternalError "FileNotFoundError")
  end.

(** The name of [q] if [q] lies directly in the directory [dir]. *)
Definition child_of (dir q : list string) : option string :=
  match last q with
  | Some name => if bool_decide (q = path_join dir name) then Some name else None
  | None => None
  end.

(** [os.listdir(dir)] *)
Definition listdir (disk : fs) (dir : list string) : result (list string) :=
  if is_dir disk dir
  then Ok (omap (child_of dir) (map fst (map_to_list disk)))
  else Raise (ExternalError "FileNotFoundError").

(** The paths at the head of the script. *)
Definition base_path : list string := ["Path"].
Definition stopwords_path : list string := path_join base_path "StopWords".
Definition master_dict_path : list string :=
  path_join base_path "MasterDictionary".

(** [if not os.path.exists(file): write the built-in list] *)
Definition write_if_missing (disk : fs) (file : list string) (content : string)
    : result fs :=
  if path_exists disk file then Ok disk else write_text disk file content.

Definition create_word_lists (disk : fs) : result fs :=
  disk ← makedirs disk stopwords_path;
  disk ← makedirs disk master_dict_path;
  let pos_file := path_join master_dict_path "positive-words.txt" in
  disk ← write_if_missing disk pos_file POSITIVE_WORDS_text;
  let neg_file := path_join master_dict_path "negative-words.txt" in
  disk ← write_if_missing disk neg_file NEGATIVE_WORDS_text;
  let stop_file := path_join stopwords_path "stopwords.txt" in
  write_if_missing disk stop_file STOPWORDS_text.

(** The first steps of [main]: the word lists are created if they are
    missing and then loaded; the value is the triple of the globals
    [stop_words], [positive_words], [negative_words].  An exception of
    [create_word_lists] ends [main]. *)
Definition load_lexicon (disk : fs)
    : result (fs * (gset string * gset string * gset string)) :=
  disk ← create_word_lists disk;
  let stop_words :=
    load_stopwords path_join (listdir disk) (read_text disk) stopwords_path in
  let '(positive_words, negative_words) :=
    load_master_dictionary path_join (read_text disk) master_dict_path in
  Ok (disk, (stop_words, positive_words, negative_words)).

End Disk.

(** ** Closed forms used in the statements *)

(** The numeric reading of an entry of a score vector. *)
Definition entry_Q (v : value) : Q :=
  match v with
  | VInt n => to_float n
  | VFloat q => q
  end.

(** The all-zero vector [[0] * 13]. *)
Definition zero_vector : list value := replicate 13 (VInt 0).

(** Number of characters of [s] that satisfy [p]. *)
Fixpoint count_chars (p : ascii → bool) (s : string) : nat :=
  match s with
  | EmptyString => 0
  | String c s' => (if p c then 1 else 0) + count_chars p s'
  end.

(** The characters a, e, i, o, u, y. *)
Definition is_aeiouy (c : ascii) : bool :=
  existsb (Ascii.eqb c) ["a"; "e"; "i"; "o"; "u"; "y"]%char.

(** A lower-case alphanumeric string as Python tests it: [s.isalnum()]
    and [s.lower() == s]. *)
Definition lowercase_alphanumeric (s : string) : bool :=
  str_isalnum s && String.eqb (str_lower s) s.

(** A non-empty string of word characters ([\w]: alphanumeric or
    underscore) that [lower] leaves unchanged. *)
Definition lowercase_word (s : string) : bool :=
  Text.nonempty s && str_forall re_word s && String.eqb (str_lower s) s.

(** No character of [s] is the underscore. *)
Definition underscore_free (s : string) : bool :=
  str_forall (λ c, negb (Ascii.eqb c "_")) s.

(** [s] ends in [suffix]. *)
Definition ends_in (s suffix : string) : Prop :=
  ∃ prefix : string, s = prefix ++ suffix.

(** Number of words that belong to a set. *)
Definition members (lexicon : gset string) (words : list string) : nat :=
  length (List.filter (λ word, bool_decide (word ∈ lexicon)) words).

(** The three masses [get_bert_sentiment] forms from a row of
    probabilities are non-negative. *)
Definition nonneg_masses (row : list Q) : Prop :=
  (0 <= float_sum (drop 3 row))%Q
  ∧ (0 <= float_sum (take 2 row))%Q
  ∧ ∀ neutral : Q, row !! 2%nat = Some neutral → (0 <= neutral)%Q.

(** A word character that [lower] leaves unchanged. *)
Definition lower_word_char (c : ascii) : bool :=
  re_word c && Ascii.eqb (char_lower c) c.

(** The characters of [s] that satisfy [p], in order. *)
Fixpoint str_filter (p : ascii → bool) (s : string) : string :=
  match s with
  | EmptyString => EmptyString
  | String c s' => if p c then String c (str_filter p s') else str_filter p s'
  end.

(** Some character of [s] satisfies [p]. *)
Fixpoint str_exists (p : ascii → bool) (s : string) : bool :=
  match s with
  | EmptyString => false
  | String c s' => p c || str_exists p s'
  end.

(** The first [n] characters of [s]. *)
Fixpoint str_take (n : nat) (s : string) : string :=
  match n, s with
  | S k, String c s' => String c (str_take k s')
  | _, _ => EmptyString
  end.

(** The strings of [parts] one after the other. *)
Definition str_concat (parts : list string) : string :=
  fold_right String.append "" parts.

(** A character that a sentence separator may consume. *)
Definition separator_char (c : ascii) : bool :=
  re_terminal c || char_isspace c.

(** [token] is one of i, we, my, ours, us. *)
Definition is_pronoun (token : string) : bool :=
  existsb (String.eqb token) pronoun_alternatives.

(** [s] is empty or starts with a character that is not white space. *)
Definition head_not_space (s : string) : bool :=
  match s with
  | EmptyString => true
  | String c _ => negb (char_isspace c)
  end.

(** The numeric value at position [i] of a score vector (0 when the
    vector is shorter). *)
Definition score_field (scores : list value) (i : nat) : Q :=
  entry_Q (default (VInt 0) (scores !! i)).

(** Fields 5 to 13 of the score vector on the normal path: the
    readability metrics, which both scripts compute with the same
    expressions from the cleaned tokens, the sentences and the text. *)
Definition readability_fields (cleaned_words sentences : list string)
    (text : string) : list value :=
  let complex_words :=
    List.filter (λ word, (2 <? Text.syllable_count word)%Z) cleaned_words in
  let avg_sentence_length :=
    (to_float (len cleaned_words) / to_float (len sentences))%Q in
  let percentage_complex_words :=
    (to_float (len complex_words) / to_float (len cleaned_words))%Q in
  [ VFloat avg_sentence_length;
    VFloat percentage_complex_words;
    VFloat ((4 # 10) * (avg_sentence_length + percentage_complex_words));
    VFloat avg_sentence_length;
    VInt (len complex_words);
    VInt (len cleaned_words);
    VFloat (to_float (int_sum (map Text.syllable_count cleaned_words))
            / to_float (len cleaned_words));
    VInt (Text.personal_pronoun_count text);
    VFloat (to_float (int_sum (map str_len cleaned_words))
            / to_float (len cleaned_words)) ].

(** One call of [sheet.cell] applied to a sheet. *)
Definition apply_write {sheet : Type}
    (set_cell : sheet → nat → nat → Batch.cell → sheet)
    (sh : sheet) (w : nat * nat * Batch.cell) : sheet :=
  set_cell sh w.1.1 w.1.2 w.2.

(** The writes for the rows of [results], the first of them going to
    sheet row [start]: row by row, and in a row cell by cell from
    column 1. *)
Definition writes_from (start : nat) (results : list (list Batch.cell))
    : list (nat * nat * Batch.cell) :=
  flat_map
    (λ '(i, result), map (λ '(j, value), (i, j, value)) (Sheet.enumerate 1 result))
    (Sheet.enumerate start results).

(** No character of [s] ends a line. *)
Definition single_line (s : string) : bool :=
  str_forall (λ c, negb (Files.line_boundary c)) s.

(** The disk after [file] has been given the text [content] unless
    something was there already. *)
Definition put_if_missing (disk : Disk.fs) (file : list string)
    (content : string) : Disk.fs :=
  match disk !! file with
  | Some _ => disk
  | None => <[file := Disk.File content]> disk
  end.

(** The three word list files of the script. *)
Definition pos_file : list string :=
  Disk.path_join Disk.master_dict_path "positive-words.txt".
Definition neg_file : list string :=
  Disk.path_join Disk.master_dict_path "negative-words.txt".
Definition stop_file : list string :=
  Disk.path_join Disk.stopwords_path "stopwords.txt".

(** The text a word list is loaded from once [create_word_lists] has
    run: the text of the file if there was one, the built-in text if
    there was nothing. *)
Definition text_or_default (disk : Disk.fs) (file : list string)
    (default_text : string) : string :=
  match disk !! file with
  | Some (Disk.File content) => content
  | _ => default_text
  end.

(** ** Tactics for the error monad *)

(** Reduce a bind whose first computation is a constructor. *)
Ltac step_bind := cbn [mbind result_bind bind].

(** Split on the outcome of the next computation of a body. *)
Ltac case_bind :=
  match goal with
  | |- context [mbind _ ?r] => destruct r as [?|?]; step_bind
  end.

(** ** Arithmetic and list facts *)

Lemma truediv_pos (a b : Q) : (0 < b)%Q → truediv a b = Ok (a / b)%Q.
Proof.
  intros Hb. unfold truediv.
  destruct (Qeq_bool b 0) eqn:E; [|reflexivity].
  apply Qeq_bool_eq in E. rewrite E in Hb. exfalso. exact (Qlt_irrefl 0 Hb).
Qed.

Lemma truediv_zero (a b : Q) : (b == 0)%Q → truediv a b = Raise ZeroDivisionError.
Proof.
  intros Hb. unfold truediv.
  rewrite (Qeq_eq_bool _ _ Hb). reflexivity.
Qed.

Lemma int_truediv_pos (a b : Z) :
  (0 < b)%Z → int_truediv a b = Ok (to_float a / to_float b)%Q.
Proof.
  intros Hb. unfold int_truediv.
  destruct (Z.eqb_spec b 0); [lia | reflexivity].
Qed.

Lemma is_empty_false {A} (xs : list A) : xs ≠ [] → is_empty xs = false.
Proof. destruct xs; [congruence | reflexivity]. Qed.

Lemma is_empty_true {A} (xs : list A) : is_empty xs = true → xs = [].
Proof. destruct xs; [reflexivity | discriminate]. Qed.

Lemma len_pos {A} (xs : list A) : xs ≠ [] → (0 < len xs)%Z.
Proof. destruct xs; [congruence | unfold len; simpl; lia]. Qed.

Lemma len_nonneg {A} (xs : list A) : (0 ≤ len xs)%Z.
Proof. unfold len. lia. Qed.

Lemma int_sum_from (xs : list Z) (acc : Z) :
  fold_left Z.add xs acc = (acc + int_sum xs)%Z.
Proof.
  unfold int_sum. revert acc.
  induction xs as [|x xs IH]; intros acc; cbn [fold_left]; [lia|].
  rewrite (IH (acc + x)%Z), (IH (0 + x)%Z). lia.
Qed.

Lemma int_sum_cons (x : Z) (xs : list Z) : int_sum (x :: xs) = (x + int_sum xs)%Z.
Proof. unfold int_sum at 1. simpl. apply int_sum_from. Qed.

(** The generator [sum(1 for word in words if word in lexicon)] counts the
    members. *)
Lemma count_hits_members (lexicon : gset string) (words : list string) :
  Lexicon.count_hits lexicon words = Z.of_nat (members lexicon words).
Proof.
  unfold Lexicon.count_hits, members.
  induction (List.filter _ words) as [|w ws IH]; [reflexivity|].
  cbn [map length]. rewrite int_sum_cons, IH. lia.
Qed.

Lemma members_le_length (lexicon : gset string) (words : list string) :
  (members lexicon words ≤ length words)%nat.
Proof. unfold members. apply List.filter_length_le. Qed.

Lemma epsilon_pos : (0 < Lexicon.epsilon)%Q.
Proof. reflexivity. Qed.

Lemma to_float_nonneg (n : Z) : (0 ≤ n)%Z → (0 <= to_float n)%Q.
Proof.
  intros Hn. unfold to_float. change 0%Q with (inject_Z 0).
  rewrite <- Zle_Qle. exact Hn.
Qed.

Lemma plus_epsilon_pos (n : Z) : (0 ≤ n)%Z → (0 < to_float n + Lexicon.epsilon)%Q.
Proof.
  intros Hn. pose proof (to_float_nonneg n Hn). pose proof epsilon_pos. lra.
Qed.

(** ** The normal path of [calculate_scores] *)

Lemma avg_syllable_per_word_nonempty (words : list string) :
  words ≠ [] →
  Lexicon.avg_syllable_per_word words =
    Ok (VFloat (to_float (int_sum (map Text.syllable_count words))
                / to_float (len words))).
Proof.
  intros Hw. unfold Lexicon.avg_syllable_per_word.
  rewrite (is_empty_false _ Hw), (int_truediv_pos _ _ (len_pos _ Hw)).
  reflexivity.
Qed.

Lemma lexicon_normal_path (stop_words positive_words negative_words : gset string)
    (text : string) :
  let cleaned_words := Lexicon.cleaned_words_of stop_words text in
  let sentences := Text.simple_sentence_tokenize text in
  let positive_score := Lexicon.count_hits positive_words cleaned_words in
  let negative_score := Lexicon.count_hits negative_words cleaned_words in
  let complex_words :=
    List.filter (λ word, (2 <? Text.syllable_count word)%Z) cleaned_words in
  let avg_sentence_length :=
    (to_float (len cleaned_words) / to_float (len sentences))%Q in
  let percentage_complex_words :=
    (to_float (len complex_words) / to_float (len cleaned_words))%Q in
  cleaned_words ≠ [] → sentences ≠ [] →
  Lexicon.calculate_scores_body stop_words positive_words negative_words text =
    Ok [ VInt positive_score;
         VInt negative_score;
         VFloat (to_float (positive_score - negative_score)
                 / (to_float (positive_score + negative_score) + Lexicon.epsilon));
         VFloat (to_float (positive_score + negative_score)
                 / (to_float (len cleaned_words) + Lexicon.epsilon));
         VFloat avg_sentence_length;
         VFloat percentage_complex_words;
         VFloat ((4 # 10) * (avg_sentence_length + percentage_complex_words));
         VFloat avg_sentence_length;
         VInt (len complex_words);
         VInt (len cleaned_words);
         VFloat (to_float (int_sum (map Text.syllable_count cleaned_words))
                 / to_float (len cleaned_words));
         VInt (Text.personal_pronoun_count text);
         VFloat (to_float (int_sum (map str_len cleaned_words))
                 / to_float (len cleaned_words)) ].
Proof.
  intros cleaned_words sentences positive_score negative_score complex_words
    avg_sentence_length percentage_complex_words Hc Hs.
  unfold Lexicon.calculate_scores_body.
  fold cleaned_words sentences.
  rewrite (is_empty_false _ Hc), (is_empty_false _ Hs). cbn [orb].
  fold positive_score negative_score.
  rewrite (truediv_pos _ (to_float (positive_score + negative_score) + _)); cycle 1.
  { apply plus_epsilon_pos. unfold positive_score, negative_score.
    rewrite !count_hits_members. lia. }
  step_bind.
  rewrite truediv_pos by (apply plus_epsilon_pos, len_nonneg).
  step_bind.
  rewrite (int_truediv_pos _ _ (len_pos _ Hs)). step_bind.
  fold complex_words.
  rewrite !(int_truediv_pos _ _ (len_pos _ Hc)). step_bind.
  rewrite (avg_syllable_per_word_nonempty _ Hc). step_bind.
  reflexivity.
Qed.

Lemma bert_normal_path (star_probabilities : string → result (list Q))
    (text : string) :
  let cleaned_words := Bert.cleaned_words_of text in
  let sentences := Text.simple_sentence_tokenize text in
  let sentiment := Bert.get_bert_sentiment star_probabilities text in
  let complex_words :=
    List.filter (λ word, (2 <? Text.syllable_count word)%Z) cleaned_words in
  let avg_sentence_length :=
    (to_float (len cleaned_words) / to_float (len sentences))%Q in
  let percentage_complex_words :=
    (to_float (len complex_words) / to_float (len cleaned_words))%Q in
  cleaned_words ≠ [] → sentences ≠ [] →
  Bert.calculate_scores_body star_probabilities text =
    Ok [ VFloat (sentiment.1.1);
         VFloat (sentiment.1.2);
         VFloat (sentiment.2);
         VFloat (Qabs (sentiment.2));
         VFloat avg_sentence_length;
         VFloat percentage_complex_words;
         VFloat ((4 # 10) * (avg_sentence_length + percentage_complex_words));
         VFloat avg_sentence_length;
         VInt (len complex_words);
         VInt (len cleaned_words);
         VFloat (to_float (int_sum (map Text.syllable_count cleaned_words))
                 / to_float (len cleaned_words));
         VInt (Text.personal_pronoun_count text);
         VFloat (to_float (int_sum (map str_len cleaned_words))
                 / to_float (len cleaned_words)) ].
Proof.
  intros cleaned_words sentences sentiment complex_words
    avg_sentence_length percentage_complex_words Hc Hs.
  unfold Bert.calculate_scores_body.
  fold cleaned_words sentences sentiment.
  rewrite (is_empty_false _ Hc), (is_empty_false _ Hs). cbn [orb].
  destruct sentiment as [[positive_score negative_score] polarity_score].
  rewrite (int_truediv_pos _ _ (len_pos _ Hs)). step_bind.
  fold complex_words.
  rewrite !(int_truediv_pos _ _ (len_pos _ Hc)). step_bind.
  reflexivity.
Qed.

(** ** Properties of the score vector *)

(** C1.  [calculate_scores] returns a vector of exactly 13 entries for
    every input text, in the lexicon variant and in the model variant:
    on the early return for empty tokens or sentences, on the normal
    return, and when any step of the body raises and the handler
    answers. *)
Theorem calculate_scores_length_13 :
  (∀ (stop_words positive_words negative_words : gset string) (text : string),
     length (Lexicon.calculate_scores stop_words positive_words negative_words text)
     = 13%nat)
  ∧ (∀ (star_probabilities : string → result (list Q)) (text : string),
       length (Bert.calculate_scores star_probabilities text) = 13%nat).
Proof.
  split.
  - intros sw pw nw text.
    unfold Lexicon.calculate_scores, Lexicon.calculate_scores_body.
    destruct (is_empty _ || is_empty _); [reflexivity|].
    repeat case_bind; reflexivity.
  - intros probs text.
    unfold Bert.calculate_scores, Bert.calculate_scores_body.
    destruct (is_empty _ || is_empty _); [reflexivity|].
    destruct (Bert.get_bert_sentiment probs text) as [[pos neg] pol].
    repeat case_bind; reflexivity.
Qed.

Lemma guard_fires {A B} (xs : list A) (ys : list B) :
  xs = [] ∨ ys = [] → is_empty xs || is_empty ys = true.
Proof.
  intros [-> | ->]; [reflexivity|]. destruct xs; reflexivity.
Qed.

(** C2.  When the cleaned token list or the sentence list of a text is
    empty, [calculate_scores] returns the vector of thirteen zeros and
    its body raises nothing; this holds in both variants, and the empty
    text is such an input. *)
Theorem degenerate_text_gives_zero_vector :
  (∀ (stop_words positive_words negative_words : gset string) (text : string),
     Lexicon.cleaned_words_of stop_words text = []
     ∨ Text.simple_sentence_tokenize text = [] →
     Lexicon.calculate_scores_body stop_words positive_words negative_words text
       = Ok zero_vector
     ∧ Lexicon.calculate_scores stop_words positive_words negative_words text
       = zero_vector)
  ∧ (∀ (star_probabilities : string → result (list Q)) (text : string),
       Bert.cleaned_words_of text = []
       ∨ Text.simple_sentence_tokenize text = [] →
       Bert.calculate_scores_body star_probabilities text = Ok zero_vector
       ∧ Bert.calculate_scores star_probabilities text = zero_vector)
  ∧ (∀ stop_words positive_words negative_words : gset string,
       Lexicon.calculate_scores stop_words positive_words negative_words ""
       = zero_vector)
  ∧ (∀ star_probabilities : string → result (list Q),
       Bert.calculate_scores star_probabilities "" = zero_vector)
  ∧ zero_vector
    = [VInt 0; VInt 0; VInt 0; VInt 0; VInt 0; VInt 0; VInt 0;
       VInt 0; VInt 0; VInt 0; VInt 0; VInt 0; VInt 0].
Proof.
  assert (HA : ∀ sw pw nw text,
             Lexicon.cleaned_words_of sw text = []
             ∨ Text.simple_sentence_tokenize text = [] →
             Lexicon.calculate_scores_body sw pw nw text = Ok zero_vector).
  { intros sw pw nw text H. unfold Lexicon.calculate_scores_body.
    rewrite (guard_fires _ _ H). reflexivity. }
  assert (HB : ∀ probs text,
             Bert.cleaned_words_of text = []
             ∨ Text.simple_sentence_tokenize text = [] →
             Bert.calculate_scores_body probs text = Ok zero_vector).
  { intros probs text H. unfold Bert.calculate_scores_body.
    rewrite (guard_fires _ _ H). reflexivity. }
  split; [|split; [|split; [|split]]].
  - intros sw pw nw text H. split; [apply HA; assumption|].
    unfold Lexicon.calculate_scores. rewrite HA by assumption. reflexivity.
  - intros probs text H. split; [apply HB; assumption|].
    unfold Bert.calculate_scores. rewrite HB by assumption. reflexivity.
  - intros sw pw nw. unfold Lexicon.calculate_scores.
    rewrite HA by (left; reflexivity). reflexivity.
  - intros probs. unfold Bert.calculate_scores.
    rewrite HB by (left; reflexivity). reflexivity.
  - reflexivity.
Qed.

Lemma degenerate_text_gives_zero_vector_witness :
  Lexicon.cleaned_words_of (list_to_set Lexicon.STOPWORDS) "We are. The"
    = []
  ∧ Lexicon.calculate_scores
      (list_to_set Lexicon.STOPWORDS) (list_to_set Lexicon.POSITIVE_WORDS)
      (list_to_set Lexicon.NEGATIVE_WORDS) "We are. The"
    = zero_vector.
Proof.
  assert (H : Lexicon.cleaned_words_of (list_to_set Lexicon.STOPWORDS)
                "We are. The" = []) by (vm_compute; reflexivity).
  split; [exact H|].
  exact (proj2 (proj1 degenerate_text_gives_zero_vector
                  (list_to_set Lexicon.STOPWORDS)
                  (list_to_set Lexicon.POSITIVE_WORDS)
                  (list_to_set Lexicon.NEGATIVE_WORDS)
                  "We are. The" (or_introl H))).
Defined.

Lemma lexicon_normal_result (stop_words positive_words negative_words : gset string)
    (text : string) (v : list value) :
  Lexicon.calculate_scores_body stop_words positive_words negative_words text = Ok v →
  Lexicon.calculate_scores stop_words positive_words negative_words text = v.
Proof. intros H. unfold Lexicon.calculate_scores. rewrite H. reflexivity. Qed.

Lemma bert_normal_result (star_probabilities : string → result (list Q))
    (text : string) (v : list value) :
  Bert.calculate_scores_body star_probabilities text = Ok v →
  Bert.calculate_scores star_probabilities text = v.
Proof. intros H. unfold Bert.calculate_scores. rewrite H. reflexivity. Qed.

(** C4.  Lexicon variant, text with non-empty cleaned tokens and
    sentences: with [positive] and [negative] the numbers of cleaned
    tokens in the positive and in the negative set, the vector holds
    [positive], [negative],
    [(positive - negative) / (positive + negative + 0.000001)] and
    [(positive + negative) / (number of cleaned tokens + 0.000001)] in its
    first four fields. *)
Theorem lexicon_polarity_and_subjectivity
    (stop_words positive_words negative_words : gset string) (text : string) :
  let cleaned_words := Lexicon.cleaned_words_of stop_words text in
  let positive := Z.of_nat (members positive_words cleaned_words) in
  let negative := Z.of_nat (members negative_words cleaned_words) in
  let scores :=
    Lexicon.calculate_scores stop_words positive_words negative_words text in
  cleaned_words ≠ [] → Text.simple_sentence_tokenize text ≠ [] →
  scores !! 0%nat = Some (VInt positive)
  ∧ scores !! 1%nat = Some (VInt negative)
  ∧ scores !! 2%nat
    = Some (VFloat (to_float (positive - negative)
                    / (to_float (positive + negative) + (1 # 1000000))))
  ∧ scores !! 3%nat
    = Some (VFloat (to_float (positive + negative)
                    / (to_float (Z.of_nat (length cleaned_words))
                       + (1 # 1000000)))).
Proof.
  intros cleaned_words positive negative scores Hc Hs.
  unfold scores.
  rewrite (lexicon_normal_result _ _ _ _ _
             (lexicon_normal_path stop_words positive_words negative_words
                text Hc Hs)).
  fold cleaned_words. rewrite !count_hits_members.
  fold positive negative.
  repeat split; reflexivity.
Qed.

Lemma lexicon_polarity_and_subjectivity_witness :
  Lexicon.calculate_scores
    (list_to_set Lexicon.STOPWORDS) (list_to_set Lexicon.POSITIVE_WORDS)
    (list_to_set Lexicon.NEGATIVE_WORDS) "This is great. This is bad."
    !! 2%nat
  = Some (VFloat (to_float (1 - 1) / (to_float (1 + 1) + (1 # 1000000)))).
Proof.
  refine (proj1 (proj2 (proj2
    (lexicon_polarity_and_subjectivity
       (list_to_set Lexicon.STOPWORDS) (list_to_set Lexicon.POSITIVE_WORDS)
       (list_to_set Lexicon.NEGATIVE_WORDS) "This is great. This is bad."
       _ _)))).
  - intros H. vm_compute in H. discriminate H.
  - intros H. vm_compute in H. discriminate H.
Defined.

(** C8.  On the path where cleaned tokens and sentences are both
    non-empty, field 5 and field 8 of the vector (positions 4 and 7
    counted from 0) hold the same value, the cleaned token count divided
    by the sentence count, in both variants. *)
Theorem avg_sentence_length_repeated :
  (∀ (stop_words positive_words negative_words : gset string) (text : string),
     let cleaned_words := Lexicon.cleaned_words_of stop_words text in
     let sentences := Text.simple_sentence_tokenize text in
     let scores :=
       Lexicon.calculate_scores stop_words positive_words negative_words text in
     cleaned_words ≠ [] → sentences ≠ [] →
     scores !! 4%nat
       = Some (VFloat (to_float (len cleaned_words) / to_float (len sentences)))
     ∧ scores !! 7%nat = scores !! 4%nat)
  ∧ (∀ (star_probabilities : string → result (list Q)) (text : string),
       let cleaned_words := Bert.cleaned_words_of text in
       let sentences := Text.simple_sentence_tokenize text in
       let scores := Bert.calculate_scores star_probabilities text in
       cleaned_words ≠ [] → sentences ≠ [] →
       scores !! 4%nat
         = Some (VFloat (to_float (len cleaned_words) / to_float (len sentences)))
       ∧ scores !! 7%nat = scores !! 4%nat).
Proof.
  split.
  - intros sw pw nw text cleaned_words sentences scores Hc Hs.
    unfold scores.
    rewrite (lexicon_normal_result _ _ _ _ _
               (lexicon_normal_path sw pw nw text Hc Hs)).
    split; reflexivity.
  - intros probs text cleaned_words sentences scores Hc Hs.
    unfold scores.
    rewrite (bert_normal_result _ _ _ (bert_normal_path probs text Hc Hs)).
    split; reflexivity.
Qed.

Lemma avg_sentence_length_repeated_witness :
  Bert.calculate_scores (λ _, Ok [1 # 10; 2 # 10; 3 # 10; 2 # 10; 2 # 10]%Q)
    "We loved it. They did not." !! 7%nat
  = Bert.calculate_scores (λ _, Ok [1 # 10; 2 # 10; 3 # 10; 2 # 10; 2 # 10]%Q)
      "We loved it. They did not." !! 4%nat.
Proof.
  refine (proj2 (proj2 avg_sentence_length_repeated
    (λ _, Ok [1 # 10; 2 # 10; 3 # 10; 2 # 10; 2 # 10]%Q)
    "We loved it. They did not." _ _)).
  - intros H. vm_compute in H. discriminate H.
  - intros H. vm_compute in H. discriminate H.
Defined.

(** C10.  Once the guard has established that cleaned tokens and
    sentences are non-empty, every denominator of [calculate_scores] is
    strictly positive -- the two counts plus 0.000001, the sentence
    count and the cleaned token count -- and the body returns a vector
    without raising, in both variants. *)
Theorem calculate_scores_divisions_defined :
  (∀ (stop_words positive_words negative_words : gset string) (text : string),
     let cleaned_words := Lexicon.cleaned_words_of stop_words text in
     let sentences := Text.simple_sentence_tokenize text in
     let positive_score := Lexicon.count_hits positive_words cleaned_words in
     let negative_score := Lexicon.count_hits negative_words cleaned_words in
     cleaned_words ≠ [] → sentences ≠ [] →
     (0 < to_float (positive_score + negative_score) + Lexicon.epsilon)%Q
     ∧ (0 < to_float (len cleaned_words) + Lexicon.epsilon)%Q
     ∧ (0 < len sentences)%Z
     ∧ (0 < len cleaned_words)%Z
     ∧ ∃ v : list value,
         Lexicon.calculate_scores_body
           stop_words positive_words negative_words text = Ok v)
  ∧ (∀ (star_probabilities : string → result (list Q)) (text : string),
       let cleaned_words := Bert.cleaned_words_of text in
       let sentences := Text.simple_sentence_tokenize text in
       cleaned_words ≠ [] → sentences ≠ [] →
       (0 < len sentences)%Z
       ∧ (0 < len cleaned_words)%Z
       ∧ ∃ v : list value,
           Bert.calculate_scores_body star_probabilities text = Ok v).
Proof.
  split.
  - intros sw pw nw text cleaned_words sentences positive_score negative_score
      Hc Hs.
    split; [|split; [|split; [|split]]].
    + apply plus_epsilon_pos. unfold positive_score, negative_score.
      rewrite !count_hits_members. lia.
    + apply plus_epsilon_pos, len_nonneg.
    + apply len_pos, Hs.
    + apply len_pos, Hc.
    + eexists. apply (lexicon_normal_path sw pw nw text Hc Hs).
  - intros probs text cleaned_words sentences Hc Hs.
    split; [|split].
    + apply len_pos, Hs.
    + apply len_pos, Hc.
    + eexists. apply (bert_normal_path probs text Hc Hs).
Qed.

Lemma calculate_scores_divisions_defined_witness :
  ∃ v : list value,
    Lexicon.calculate_scores_body
      (list_to_set Lexicon.STOPWORDS) (list_to_set Lexicon.POSITIVE_WORDS)
      (list_to_set Lexicon.NEGATIVE_WORDS) "This is great. This is bad."
    = Ok v.
Proof.
  refine (proj2 (proj2 (proj2 (proj2
    (proj1 calculate_scores_divisions_defined
       (list_to_set Lexicon.STOPWORDS) (list_to_set Lexicon.POSITIVE_WORDS)
       (list_to_set Lexicon.NEGATIVE_WORDS) "This is great. This is bad."
       _ _))))).
  - intros H. vm_compute in H. discriminate H.
  - intros H. vm_compute in H. discriminate H.
Defined.

(** ** Syllables *)

Lemma re_vowel_aeiouy (c : ascii) : re_vowel c = is_aeiouy c.
Proof. destruct c as [[] [] [] [] [] [] [] []]; reflexivity. Qed.

Lemma findall_vowels_count (s : string) :
  length (re_findall_vowels s) = count_chars is_aeiouy s.
Proof.
  induction s as [|c s IH]; [reflexivity|].
  cbn [re_findall_vowels count_chars]. rewrite <- re_vowel_aeiouy.
  destruct (re_vowel c); cbn [length]; rewrite IH; reflexivity.
Qed.

Lemma str_app_cons (c : ascii) (s t : string) :
  String c s ++ t = String c (s ++ t).
Proof. reflexivity. Qed.

Lemma str_app_nil (t : string) : "" ++ t = t.
Proof. reflexivity. Qed.

Lemma str_length_app (s t : string) :
  String.length (s ++ t) = (String.length s + String.length t)%nat.
Proof.
  induction s as [|c s IH]; [reflexivity|].
  rewrite str_app_cons. cbn [String.length]. rewrite IH. reflexivity.
Qed.

Lemma substring_all (s : string) : substring 0 (String.length s) s = s.
Proof. induction s as [|c s IH]; [reflexivity|]. cbn. rewrite IH. reflexivity. Qed.

Lemma substring_after_prefix (prefix suffix : string) :
  substring (String.length prefix) (String.length suffix) (prefix ++ suffix)
  = suffix.
Proof.
  induction prefix as [|c prefix IH]; [apply substring_all|].
  rewrite str_app_cons. cbn [String.length substring]. exact IH.
Qed.

Lemma substring_split (s : string) (m : nat) :
  (m ≤ String.length s)%nat →
  s = substring 0 m s ++ substring m (String.length s - m) s.
Proof.
  revert m. induction s as [|c s IH]; intros m Hm.
  - destruct m; reflexivity.
  - destruct m as [|m].
    + cbn [substring String.length Nat.sub]. rewrite str_app_nil.
      rewrite substring_all. reflexivity.
    + cbn [String.length] in Hm.
      cbn [substring String.length Nat.sub]. rewrite str_app_cons.
      f_equal. apply IH. lia.
Qed.

(** [str.endswith] decides the suffix relation. *)
Lemma str_endswith_ends_in (s suffix : string) :
  str_endswith s suffix = true ↔ ends_in s suffix.
Proof.
  unfold str_endswith, ends_in. split.
  - intros H. apply andb_prop in H as [Hk He].
    apply Nat.leb_le in Hk. apply String.eqb_eq in He.
    exists (substring 0 (String.length s - String.length suffix) s).
    pose proof (substring_split s (String.length s - String.length suffix))
      as Hsplit.
    replace (String.length s - (String.length s - String.length suffix))%nat
      with (String.length suffix) in Hsplit by lia.
    rewrite He in Hsplit. apply Hsplit. lia.
  - intros [prefix ->]. rewrite str_length_app.
    apply andb_true_intro. split; [apply Nat.leb_le; lia|].
    apply String.eqb_eq.
    replace (String.length prefix + String.length suffix - String.length suffix)%nat
      with (String.length prefix) by lia.
    apply substring_after_prefix.
Qed.

(** C3.  [syllable_count word] is the number of characters a, e, i, o,
    u, y in the lower-cased word, less one when the lower-cased word ends
    in "es" or in "ed", and never less than 1. *)
Theorem syllable_count_formula (word : string) :
  let lowered := str_lower word in
  let vowels := Z.of_nat (count_chars is_aeiouy lowered) in
  (ends_in lowered "es" ∨ ends_in lowered "ed" →
     Text.syllable_count word = Z.max 1 (vowels - 1))
  ∧ (¬ (ends_in lowered "es" ∨ ends_in lowered "ed") →
       Text.syllable_count word = Z.max 1 vowels)
  ∧ (1 ≤ Text.syllable_count word)%Z.
Proof.
  intros lowered vowels.
  unfold Text.syllable_count. fold lowered.
  unfold len. rewrite findall_vowels_count. fold vowels.
  split; [|split].
  - intros H.
    destruct (str_endswith lowered "es" || str_endswith lowered "ed") eqn:E;
      [reflexivity|].
    apply orb_false_elim in E as [E1 E2].
    destruct H as [H | H]; apply str_endswith_ends_in in H; congruence.
  - intros H.
    destruct (str_endswith lowered "es" || str_endswith lowered "ed") eqn:E;
      [|reflexivity].
    exfalso. apply H.
    apply orb_prop in E as [E | E]; apply str_endswith_ends_in in E; tauto.
  - apply Z.le_max_l.
Qed.

Lemma syllable_count_formula_witness :
  Text.syllable_count "Loved" = Z.max 1 (2 - 1)
  ∧ Text.syllable_count "Rhythm" = Z.max 1 1.
Proof.
  split.
  - refine (proj1 (syllable_count_formula "Loved") _).
    right. exists "lov". reflexivity.
  - refine (proj1 (proj2 (syllable_count_formula "Rhythm")) _).
    intros [H | H]; apply str_endswith_ends_in in H; vm_compute in H;
      discriminate H.
Defined.

(** ** Sentiment scores *)

Lemma ratio_within_unit (a b : Q) :
  (0 < b)%Q → (- b <= a)%Q → (a <= b)%Q → (- (1) <= a / b <= 1)%Q.
Proof.
  intros Hb Hlo Hhi. split.
  - apply Qle_shift_div_l; [exact Hb | lra].
  - apply Qle_shift_div_r; [exact Hb | lra].
Qed.

Lemma float_sum_from_nonneg (xs : list Q) (acc : Q) :
  Forall (λ x, (0 <= x)%Q) xs → (0 <= acc)%Q → (0 <= fold_left Qplus xs acc)%Q.
Proof.
  intros Hxs. revert acc.
  induction Hxs as [|x xs Hx _ IH]; intros acc Hacc; cbn [fold_left];
    [exact Hacc|].
  apply IH. lra.
Qed.

Lemma float_sum_nonneg (xs : list Q) :
  Forall (λ x, (0 <= x)%Q) xs → (0 <= float_sum xs)%Q.
Proof. intros H. apply float_sum_from_nonneg; [exact H | lra]. Qed.

Lemma guard_passes {A B} (xs : list A) (ys : list B) :
  is_empty xs || is_empty ys = false → xs ≠ [] ∧ ys ≠ [].
Proof.
  intros H. apply orb_false_elim in H as [Hx Hy].
  split; intros ->; discriminate.
Qed.

Lemma nonneg_probabilities_masses (row : list Q) :
  Forall (λ x, (0 <= x)%Q) row → nonneg_masses row.
Proof.
  intros Hrow. split; [|split].
  - apply float_sum_nonneg, Forall_drop, Hrow.
  - apply float_sum_nonneg, Forall_take, Hrow.
  - intros neutral E2. exact (Forall_lookup_1 _ _ _ _ Hrow E2).
Qed.

Lemma bert_compound_bounds (star_probabilities : string → result (list Q))
    (text : string) :
  (∀ row, star_probabilities text = Ok row → nonneg_masses row) →
  (- (1) <= (Bert.get_bert_sentiment star_probabilities text).2 <= 1)%Q.
Proof.
  intros Hrow.
  unfold Bert.get_bert_sentiment, Bert.get_bert_sentiment_body.
  destruct (star_probabilities text) as [row|e]; step_bind;
    [|cbn; lra].
  destruct (Hrow row eq_refl) as (Hpos & Hneg & Hneu).
  unfold Bert.index.
  destruct (row !! 2%nat) as [neutral|] eqn:E2; step_bind; [|cbn; lra].
  specialize (Hneu neutral eq_refl).
  unfold truediv.
  destruct (Qeq_bool _ 0) eqn:Ed; step_bind; cbn [try_except snd];
    [lra|].
  apply Qeq_bool_neq in Ed.
  apply ratio_within_unit; lra.
Qed.

(** C5.  The polarity score returned by the lexicon variant lies in
    [-1, 1] for every text and every lexicon, and the compound score of
    the model variant lies in [-1, 1] whenever the positive, negative
    and neutral masses formed from the classifier's answer are
    non-negative. *)
Theorem polarity_and_compound_in_unit_interval :
  (∀ (stop_words positive_words negative_words : gset string) (text : string)
     (v : value),
     Lexicon.calculate_scores stop_words positive_words negative_words text
       !! 2%nat = Some v →
     (- (1) <= entry_Q v <= 1)%Q)
  ∧ (∀ (star_probabilities : string → result (list Q)) (text : string),
       (∀ row, star_probabilities text = Ok row → nonneg_masses row) →
       (- (1) <= (Bert.get_bert_sentiment star_probabilities text).2 <= 1)%Q
       ∧ ∀ v : value,
           Bert.calculate_scores star_probabilities text !! 2%nat = Some v →
           (- (1) <= entry_Q v <= 1)%Q).
Proof.
  split.
  - intros sw pw nw text v.
    destruct (is_empty (Lexicon.cleaned_words_of sw text)
              || is_empty (Text.simple_sentence_tokenize text)) eqn:G.
    + unfold Lexicon.calculate_scores, Lexicon.calculate_scores_body.
      rewrite G. cbn [try_except zero_vector replicate lookup list_lookup].
      intros [= <-]. change (- (1) <= 0 <= 1)%Q. lra.
    + apply guard_passes in G as [Hc Hs].
      rewrite (lexicon_normal_result _ _ _ _ _
                 (lexicon_normal_path sw pw nw text Hc Hs)).
      cbn [lookup list_lookup]. intros [= <-]. cbn [entry_Q].
      rewrite !count_hits_members.
      set (p := members pw _). set (n := members nw _).
      assert (Hp : (0 <= to_float (Z.of_nat p))%Q)
        by (apply to_float_nonneg; lia).
      assert (Hn : (0 <= to_float (Z.of_nat n))%Q)
        by (apply to_float_nonneg; lia).
      unfold to_float in *. rewrite inject_Z_plus.
      unfold Z.sub. rewrite inject_Z_plus, inject_Z_opp.
      pose proof epsilon_pos.
      apply ratio_within_unit; lra.
  - intros probs text Hrow.
    pose proof (bert_compound_bounds probs text Hrow) as Hb.
    split; [exact Hb|].
    intros v.
    destruct (is_empty (Bert.cleaned_words_of text)
              || is_empty (Text.simple_sentence_tokenize text)) eqn:G.
    + unfold Bert.calculate_scores, Bert.calculate_scores_body.
      rewrite G. cbn [try_except zero_vector replicate lookup list_lookup].
      intros [= <-]. change (- (1) <= 0 <= 1)%Q. lra.
    + apply guard_passes in G as [Hc Hs].
      rewrite (bert_normal_result _ _ _ (bert_normal_path probs text Hc Hs)).
      cbn [lookup list_lookup]. intros [= <-]. exact Hb.
Qed.

Lemma polarity_and_compound_in_unit_interval_witness :
  (- (1) <= (Bert.get_bert_sentiment
               (λ _, Ok [1 # 10; 2 # 10; 3 # 10; 2 # 10; 2 # 10]%Q)
               "We loved it. They did not.").2 <= 1)%Q.
Proof.
  refine (proj1 (proj2 polarity_and_compound_in_unit_interval
    (λ _, Ok [1 # 10; 2 # 10; 3 # 10; 2 # 10; 2 # 10]%Q)
    "We loved it. They did not." _)).
  intros row [= <-]. apply nonneg_probabilities_masses.
  repeat (apply Forall_cons; split; [discriminate|]). apply Forall_nil_2.
Defined.

(** C7.  Model variant.  When the classifier answers and the three
    masses do not sum to zero, [get_bert_sentiment] returns the positive
    mass, the negative mass and
    [(positive - negative) / (positive + negative + neutral)]; when the
    sum is zero, when the row has no third entry, when the classifier
    raises, or when the body raises for any reason, it returns 0 for all
    three scores.  On the normal path of [calculate_scores] field 3 is
    that compound score and field 4 is its absolute value. *)
Theorem bert_compound_and_subjectivity
    (star_probabilities : string → result (list Q)) (text : string) :
  (∀ (row : list Q) (neutral : Q),
     star_probabilities text = Ok row → row !! 2%nat = Some neutral →
     let positive := float_sum (drop 3 row) in
     let negative := float_sum (take 2 row) in
     (¬ (positive + negative + neutral == 0)%Q →
        Bert.get_bert_sentiment star_probabilities text
        = (positive, negative,
           (positive - negative) / (positive + negative + neutral))%Q)
     ∧ ((positive + negative + neutral == 0)%Q →
          Bert.get_bert_sentiment star_probabilities text = (0, 0, 0)%Q))
  ∧ (∀ row : list Q,
       star_probabilities text = Ok row → row !! 2%nat = None →
       Bert.get_bert_sentiment star_probabilities text = (0, 0, 0)%Q)
  ∧ (∀ e : exn,
       star_probabilities text = Raise e →
       Bert.get_bert_sentiment star_probabilities text = (0, 0, 0)%Q)
  ∧ (∀ e : exn,
       Bert.get_bert_sentiment_body star_probabilities text = Raise e →
       Bert.get_bert_sentiment star_probabilities text = (0, 0, 0)%Q)
  ∧ (Bert.cleaned_words_of text ≠ [] →
     Text.simple_sentence_tokenize text ≠ [] →
     let compound := (Bert.get_bert_sentiment star_probabilities text).2 in
     let scores := Bert.calculate_scores star_probabilities text in
     scores !! 2%nat = Some (VFloat compound)
     ∧ scores !! 3%nat = Some (VFloat (Qabs compound))).
Proof.
  split; [|split; [|split; [|split]]].
  - intros row neutral Hrow Hneu positive negative.
    unfold Bert.get_bert_sentiment, Bert.get_bert_sentiment_body.
    rewrite Hrow. step_bind. unfold Bert.index. rewrite Hneu. step_bind.
    fold positive negative. unfold truediv. split.
    + intros Hd.
      destruct (Qeq_bool _ 0) eqn:Ed; [|reflexivity].
      apply Qeq_bool_eq in Ed. contradiction.
    + intros Hd. rewrite (Qeq_eq_bool _ _ Hd). reflexivity.
  - intros row Hrow Hneu.
    unfold Bert.get_bert_sentiment, Bert.get_bert_sentiment_body.
    rewrite Hrow. step_bind. unfold Bert.index. rewrite Hneu. reflexivity.
  - intros e He.
    unfold Bert.get_bert_sentiment, Bert.get_bert_sentiment_body.
    rewrite He. reflexivity.
  - intros e He. unfold Bert.get_bert_sentiment. rewrite He. reflexivity.
  - intros Hc Hs compound scores. unfold scores.
    rewrite (bert_normal_result _ _ _
               (bert_normal_path star_probabilities text Hc Hs)).
    split; reflexivity.
Qed.

Lemma bert_compound_and_subjectivity_witness :
  Bert.get_bert_sentiment
    (λ _, Ok [1 # 10; 2 # 10; 3 # 10; 2 # 10; 2 # 10]%Q) "We loved it."
  = (float_sum [2 # 10; 2 # 10], float_sum [1 # 10; 2 # 10],
     (float_sum [2 # 10; 2 # 10] - float_sum [1 # 10; 2 # 10])
     / (float_sum [2 # 10; 2 # 10] + float_sum [1 # 10; 2 # 10] + (3 # 10)))%Q
  ∧ Bert.get_bert_sentiment (λ _, Ok [0; 0; 0; 0; 0]%Q) "We loved it."
    = (0, 0, 0)%Q.
Proof.
  split.
  - refine (proj1 (proj1
      (bert_compound_and_subjectivity
         (λ _, Ok [1 # 10; 2 # 10; 3 # 10; 2 # 10; 2 # 10]%Q) "We loved it.")
      [1 # 10; 2 # 10; 3 # 10; 2 # 10; 2 # 10]%Q (3 # 10)%Q
      eq_refl eq_refl) _).
    intros H. vm_compute in H. discriminate H.
  - refine (proj2 (proj1
      (bert_compound_and_subjectivity
         (λ _, Ok [0; 0; 0; 0; 0]%Q) "We loved it.")
      [0; 0; 0; 0; 0]%Q 0%Q eq_refl eq_refl) _).
    reflexivity.
Defined.

(** ** Word tokens *)

Lemma char_lower_idem (c : ascii) : char_lower (char_lower c) = char_lower c.
Proof. destruct c as [[] [] [] [] [] [] [] []]; reflexivity. Qed.

Lemma re_word_cases (c : ascii) :
  re_word c = char_isalnum c || negb (negb (Ascii.eqb c "_")).
Proof. destruct c as [[] [] [] [] [] [] [] []]; reflexivity. Qed.

Lemma alnum_not_underscore (c : ascii) :
  char_isalnum c = true → negb (Ascii.eqb c "_") = true.
Proof. destruct c as [[] [] [] [] [] [] [] []]; (reflexivity || discriminate). Qed.

Lemma str_forall_app (p : ascii → bool) (s t : string) :
  str_forall p (s ++ t) = str_forall p s && str_forall p t.
Proof.
  induction s as [|c s IH]; [reflexivity|].
  rewrite str_app_cons. cbn [str_forall]. rewrite IH. apply andb_assoc.
Qed.

Lemma nonempty_snoc (s : string) (c : ascii) :
  Text.nonempty (s ++ String c "") = true.
Proof. destruct s; reflexivity. Qed.

Lemma flush_In (cur tok : string) :
  In tok (flush cur) → tok = cur ∧ Text.nonempty cur = true.
Proof.
  destruct cur; cbn [flush In]; [tauto|].
  intros [<- | []]. split; reflexivity.
Qed.

Lemma str_lower_fixed (s : string) :
  str_forall (λ c, Ascii.eqb (char_lower c) c) (str_lower s) = true.
Proof.
  induction s as [|c s IH]; [reflexivity|].
  cbn [str_lower str_map str_forall]. fold (str_lower s).
  rewrite char_lower_idem, Ascii.eqb_refl. exact IH.
Qed.

Lemma str_forall_fixed_lower (s : string) :
  str_forall (λ c, Ascii.eqb (char_lower c) c) s = true → str_lower s = s.
Proof.
  induction s as [|c s IH]; [reflexivity|].
  cbn [str_forall str_lower str_map]. fold (str_lower s).
  intros H. apply andb_prop in H as [Hc Hs].
  apply Ascii.eqb_eq in Hc. rewrite Hc, (IH Hs). reflexivity.
Qed.

Lemma str_forall_and (p q : ascii → bool) (s : string) :
  str_forall (λ c, p c && q c) s = str_forall p s && str_forall q s.
Proof.
  induction s as [|c s IH]; [reflexivity|].
  cbn [str_forall]. rewrite IH.
  destruct (p c), (q c), (str_forall p s), (str_forall q s); reflexivity.
Qed.

(** Every run that the scan emits is non-empty and made of the word
    characters it has read. *)
Lemma word_runs_tokens (s cur tok : string) :
  str_forall lower_word_char cur = true →
  str_forall (λ c, Ascii.eqb (char_lower c) c) s = true →
  In tok (word_runs cur s) →
  Text.nonempty tok = true ∧ str_forall lower_word_char tok = true.
Proof.
  revert cur. induction s as [|c s IH]; intros cur Hcur Hs Hin.
  - cbn [word_runs] in Hin. apply flush_In in Hin as [-> Hne]. auto.
  - cbn [str_forall] in Hs. apply andb_prop in Hs as [Hc Hs].
    cbn [word_runs] in Hin. destruct (re_word c) eqn:Hw.
    + apply (IH (cur ++ String c "")); [|exact Hs|exact Hin].
      rewrite str_forall_app, Hcur. cbn [str_forall].
      unfold lower_word_char. rewrite Hw, Hc. reflexivity.
    + apply in_app_or in Hin as [Hin | Hin].
      * apply flush_In in Hin as [-> Hne]. auto.
      * apply (IH ""); [reflexivity | exact Hs | exact Hin].
Qed.

Lemma all_alnum_iff_underscore_free (s : string) :
  str_forall re_word s = true →
  str_forall char_isalnum s = underscore_free s.
Proof.
  unfold underscore_free.
  induction s as [|c s IH]; [reflexivity|].
  cbn [str_forall]. intros Hw. apply andb_prop in Hw as [Hc Hs].
  rewrite (IH Hs). f_equal.
  rewrite re_word_cases in Hc.
  destruct (char_isalnum c) eqn:Ha.
  - symmetry. apply alnum_not_underscore, Ha.
  - cbn [orb] in Hc.
    destruct (negb (Ascii.eqb c "_")); [discriminate|reflexivity].
Qed.

Lemma isalnum_iff_underscore_free (s : string) :
  Text.nonempty s = true → str_forall re_word s = true →
  str_isalnum s = underscore_free s.
Proof.
  intros Hne Hw. destruct s as [|c s]; [discriminate|].
  unfold str_isalnum. apply all_alnum_iff_underscore_free, Hw.
Qed.

(** C6, as the claim states it, fails: the tokenizer keeps the
    underscore, which is a word character and not an alphanumeric one. *)
Lemma word_token_not_alphanumeric :
  ¬ (∀ text token : string,
       In token (Text.simple_word_tokenize text) →
       lowercase_alphanumeric token = true).
Proof.
  intros H.
  specialize (H "read the snake_case name" "snake_case").
  assert (Hin : In "snake_case"
                  (Text.simple_word_tokenize "read the snake_case name"))
    by (vm_compute; tauto).
  specialize (H Hin). vm_compute in H. discriminate H.
Qed.

(** C6, amended.  Every token produced by the word tokenizer is a
    non-empty string of word characters (alphanumeric characters or
    underscores) that [lower] leaves unchanged; it is a lower-case
    alphanumeric string exactly when it contains no underscore. *)
Theorem word_tokens_are_lowercase_words (text token : string) :
  In token (Text.simple_word_tokenize text) →
  lowercase_word token = true
  ∧ lowercase_alphanumeric token = underscore_free token.
Proof.
  intros Hin. unfold Text.simple_word_tokenize, re_findall_words in Hin.
  apply word_runs_tokens in Hin as [Hne Hall];
    [|reflexivity|apply str_lower_fixed].
  unfold lower_word_char in Hall. rewrite str_forall_and in Hall.
  apply andb_prop in Hall as [Hw Hl].
  apply str_forall_fixed_lower in Hl.
  unfold lowercase_word, lowercase_alphanumeric.
  rewrite Hne, Hw, Hl, String.eqb_refl.
  rewrite (isalnum_iff_underscore_free _ Hne Hw).
  split; [reflexivity | apply andb_true_r].
Qed.

Lemma word_tokens_are_lowercase_words_witness :
  lowercase_word "snake_case" = true
  ∧ lowercase_alphanumeric "snake_case" = underscore_free "snake_case".
Proof.
  refine (word_tokens_are_lowercase_words
            "Read the snake_case NAME" "snake_case" _).
  vm_compute. tauto.
Defined.

(** ** The per-record loop *)

Lemma main_loop_from (extract_article_text : string → result string)
    (calculate_scores : string → result (list value))
    (df : list Batch.record) (results : list (list Batch.cell)) :
  fold_left
    (λ results row,
       (results
        ++ [Batch.process_record extract_article_text calculate_scores row])%list)
    df results
  = (results
     ++ map (Batch.process_record extract_article_text calculate_scores) df)%list.
Proof.
  revert results. induction df as [|row df IH]; intros results.
  - cbn [fold_left map]. rewrite app_nil_r. reflexivity.
  - cbn [fold_left map]. rewrite IH, <- app_assoc. reflexivity.
Qed.

(** The loop appends one row per record, in order. *)
Lemma main_loop_map (extract_article_text : string → result string)
    (calculate_scores : string → result (list value))
    (df : list Batch.record) :
  Batch.main_loop extract_article_text calculate_scores df
  = map (Batch.process_record extract_article_text calculate_scores) df.
Proof. unfold Batch.main_loop. apply main_loop_from. Qed.

Lemma process_record_failed (extract_article_text : string → result string)
    (calculate_scores : string → result (list value)) (row : Batch.record) :
  extract_article_text (Batch.URL row) = Ok ""
  ∨ (∃ e, Batch.process_record_body extract_article_text calculate_scores row
          = Raise e) →
  Batch.process_record extract_article_text calculate_scores row
  = Batch.null_row row.
Proof.
  unfold Batch.process_record. intros [H | [e H]].
  - unfold Batch.process_record_body. rewrite H. reflexivity.
  - rewrite H. reflexivity.
Qed.

(** C9.  In the loop of [main], a record whose extracted text is empty,
    or whose processing raises, contributes the row [URL_ID, URL]
    followed by 13 nulls; the loop still emits one row for every record
    of the sheet, each computed from its own record, so later records
    are processed.  The loops of both scripts are instances: a page that
    cannot be fetched gives the null row. *)
Theorem failed_record_gives_null_row :
  (∀ (extract_article_text : string → result string)
     (calculate_scores : string → result (list value))
     (df : list Batch.record),
     let results := Batch.main_loop extract_article_text calculate_scores df in
     length results = length df
     ∧ (∀ (i : nat) (row : Batch.record),
          df !! i = Some row →
          results !! i
          = Some (Batch.process_record
                    extract_article_text calculate_scores row))
     ∧ (∀ (i : nat) (row : Batch.record),
          df !! i = Some row →
          extract_article_text (Batch.URL row) = Ok ""
          ∨ (∃ e, Batch.process_record_body
                    extract_article_text calculate_scores row = Raise e) →
          results !! i
          = Some ([Batch.URL_ID row; Batch.CText (Batch.URL row)]
                  ++ replicate 13 Batch.CNone)%list))
  ∧ (∀ (fetch_page : string → result (option string * list string))
       (stop_words positive_words negative_words : gset string)
       (df : list Batch.record) (i : nat) (row : Batch.record) (e : exn),
       df !! i = Some row →
       fetch_page (Batch.URL row) = Raise e →
       Batch.lexicon_main_loop
         fetch_page stop_words positive_words negative_words df !! i
       = Some ([Batch.URL_ID row; Batch.CText (Batch.URL row)]
               ++ replicate 13 Batch.CNone)%list)
  ∧ (∀ (fetch_page : string → result (option string * list string))
       (star_probabilities : string → result (list Q))
       (df : list Batch.record) (i : nat) (row : Batch.record) (e : exn),
       df !! i = Some row →
       fetch_page (Batch.URL row) = Raise e →
       Batch.bert_main_loop fetch_page star_probabilities df !! i
       = Some ([Batch.URL_ID row; Batch.CText (Batch.URL row)]
               ++ replicate 13 Batch.CNone)%list).
Proof.
  assert (Hrow : ∀ extract calc (df : list Batch.record) i row,
             df !! i = Some row →
             Batch.main_loop extract calc df !! i
             = Some (Batch.process_record extract calc row)).
  { intros extract calc df i row Hi.
    rewrite main_loop_map, list_lookup_fmap, Hi. reflexivity. }
  split; [|split].
  - intros extract calc df results. unfold results.
    split; [|split].
    + rewrite main_loop_map. apply length_map.
    + apply Hrow.
    + intros i row Hi Hfail.
      rewrite (Hrow _ _ _ _ _ Hi), (process_record_failed _ _ _ Hfail).
      reflexivity.
  - intros fetch sw pw nw df i row e Hi Hfetch.
    unfold Batch.lexicon_main_loop.
    rewrite (Hrow _ _ _ _ _ Hi), process_record_failed; [reflexivity|].
    left. unfold Text.extract_article_text. rewrite Hfetch. reflexivity.
  - intros fetch probs df i row e Hi Hfetch.
    unfold Batch.bert_main_loop.
    rewrite (Hrow _ _ _ _ _ Hi), process_record_failed; [reflexivity|].
    left. unfold Text.extract_article_text. rewrite Hfetch. reflexivity.
Qed.

Lemma failed_record_gives_null_row_witness :
  Batch.lexicon_main_loop
    (λ url, if String.eqb url "http://down.example"
            then Raise (ExternalError "connection refused")
            else Ok (Some "Great news", ["This is great."; "That was bad."]))
    (list_to_set Lexicon.STOPWORDS) (list_to_set Lexicon.POSITIVE_WORDS)
    (list_to_set Lexicon.NEGATIVE_WORDS)
    [ {| Batch.URL_ID := Batch.CText "a1"; Batch.URL := "http://down.example" |};
      {| Batch.URL_ID := Batch.CText "a2"; Batch.URL := "http://up.example" |} ]
    !! 0%nat
  = Some ([Batch.CText "a1"; Batch.CText "http://down.example"]
          ++ replicate 13 Batch.CNone)%list.
Proof.
  exact (proj1 (proj2 failed_record_gives_null_row)
    (λ url, if String.eqb url "http://down.example"
            then Raise (ExternalError "connection refused")
            else Ok (Some "Great news", ["This is great."; "That was bad."]))
    (list_to_set Lexicon.STOPWORDS) (list_to_set Lexicon.POSITIVE_WORDS)
    (list_to_set Lexicon.NEGATIVE_WORDS)
    [ {| Batch.URL_ID := Batch.CText "a1"; Batch.URL := "http://down.example" |};
      {| Batch.URL_ID := Batch.CText "a2"; Batch.URL := "http://up.example" |} ]
    0%nat
    {| Batch.URL_ID := Batch.CText "a1"; Batch.URL := "http://down.example" |}
    (ExternalError "connection refused") eq_refl eq_refl).
Defined.

(** ** Worked examples *)

Example tokenize_words_example :
  Text.simple_word_tokenize "This is great. It's a_b, BAD x2!"
  = ["this"; "is"; "great"; "it"; "s"; "a_b"; "bad"; "x2"].
Proof. reflexivity. Qed.

Example tokenize_sentences_example :
  Text.simple_sentence_tokenize "This is great. This is bad."
  = ["This is great"; "This is bad."].
Proof. reflexivity. Qed.

(** A terminal mark followed by a lower-case word does not end a
    sentence, and the pieces are stripped. *)
Example tokenize_sentences_lowercase_example :
  Text.simple_sentence_tokenize "  One. two!?  Three?  "
  = ["One. two"; "Three?"].
Proof. reflexivity. Qed.

Example personal_pronouns_example :
  Text.personal_pronoun_count "I am We, us; bus US ours my_ My" = 6%Z.
Proof. reflexivity. Qed.

Example syllable_count_examples :
  map Text.syllable_count ["makes"; "the"; "Excellent"; "zzz"; "ed"; "loved"]
  = [1; 1; 3; 1; 1; 1]%Z.
Proof. reflexivity. Qed.

(** The example of the specification: one positive and one negative
    word among two cleaned tokens. *)
Example lexicon_scores_example :
  take 4 (Lexicon.calculate_scores
            (list_to_set Lexicon.STOPWORDS)
            (list_to_set Lexicon.POSITIVE_WORDS)
            (list_to_set Lexicon.NEGATIVE_WORDS)
            "This is great. This is bad.")
  = [VInt 1; VInt 1; VFloat (0 # 2000001); VFloat (2000000 # 2000001)].
Proof. vm_compute. reflexivity. Qed.

Example bert_sentiment_zero_sum_example :
  Bert.get_bert_sentiment (λ _, Ok [0; 0; 0; 0; 0]%Q) "Fine." = (0, 0, 0)%Q.
Proof. reflexivity. Qed.

Example bert_sentiment_short_row_example :
  Bert.get_bert_sentiment (λ _, Ok [1 # 2; 1 # 2]%Q) "Fine." = (0, 0, 0)%Q.
Proof. reflexivity. Qed.

(** ** Further properties of the tokenizers *)

Lemma str_app_nil_r (s : string) : s ++ "" = s.
Proof.
  induction s as [|c s IH]; [reflexivity|].
  rewrite str_app_cons, IH. reflexivity.
Qed.

Lemma str_app_assoc (s t u : string) : (s ++ t) ++ u = s ++ (t ++ u).
Proof.
  induction s as [|c s IH]; [reflexivity|].
  rewrite !str_app_cons, IH. reflexivity.
Qed.

Lemma str_concat_app (xs ys : list string) :
  str_concat (xs ++ ys)%list = str_concat xs ++ str_concat ys.
Proof.
  induction xs as [|x xs IH]; [reflexivity|].
  cbn [app str_concat fold_right]. fold (str_concat (xs ++ ys)%list).
  fold (str_concat xs). rewrite IH, str_app_assoc. reflexivity.
Qed.

Lemma str_concat_flush (cur : string) : str_concat (flush cur) = cur.
Proof.
  destruct cur as [|c cur]; [reflexivity|].
  cbn [flush str_concat fold_right]. apply str_app_nil_r.
Qed.

Lemma word_runs_concat (s cur : string) :
  str_concat (word_runs cur s) = cur ++ str_filter re_word s.
Proof.
  revert cur. induction s as [|c s IH]; intros cur.
  - cbn [word_runs str_filter]. rewrite str_concat_flush, str_app_nil_r.
    reflexivity.
  - cbn [word_runs str_filter]. destruct (re_word c).
    + rewrite IH, str_app_assoc. reflexivity.
    + rewrite str_concat_app, str_concat_flush, IH. reflexivity.
Qed.

(** X1.  The word tokens, one after the other, are the word characters
    of the lower-cased text in their order: tokenizing drops every other
    character and nothing else. *)
Theorem word_tokens_concat (text : string) :
  str_concat (Text.simple_word_tokenize text)
  = str_filter re_word (str_lower text).
Proof.
  unfold Text.simple_word_tokenize, re_findall_words.
  rewrite word_runs_concat. reflexivity.
Qed.

Lemma re_word_lower (c : ascii) : re_word (char_lower c) = re_word c.
Proof. destruct c as [[] [] [] [] [] [] [] []]; reflexivity. Qed.

Lemma str_lower_app (s t : string) :
  str_lower (s ++ t) = str_lower s ++ str_lower t.
Proof.
  induction s as [|c s IH]; [reflexivity|].
  rewrite str_app_cons. cbn [str_lower str_map].
  fold (str_lower (s ++ t)) (str_lower s).
  rewrite IH. reflexivity.
Qed.

Lemma flush_lower (cur : string) :
  flush (str_lower cur) = map str_lower (flush cur).
Proof. destruct cur; reflexivity. Qed.

(** Lower-casing commutes with the scan for word runs. *)
Lemma word_runs_lower (s cur : string) :
  word_runs (str_lower cur) (str_lower s) = map str_lower (word_runs cur s).
Proof.
  revert cur. induction s as [|c s IH]; intros cur.
  - apply flush_lower.
  - cbn [str_lower str_map word_runs]. fold (str_lower s).
    rewrite re_word_lower. destruct (re_word c).
    + rewrite <- IH, str_lower_app. reflexivity.
    + rewrite map_app, <- flush_lower, <- (IH ""). reflexivity.
Qed.

Lemma filter_map_length {A B} (f : A → B) (p : B → bool) (xs : list A) :
  length (List.filter p (map f xs)) = length (List.filter (λ x, p (f x)) xs).
Proof.
  induction xs as [|x xs IH]; [reflexivity|].
  cbn [map List.filter]. destruct (p (f x)); cbn [length]; rewrite IH;
    reflexivity.
Qed.


(** *** Reversal and stripping *)

Lemma str_rev_app_spec (s t : string) :
  String.rev_app s t = String.rev s ++ t.
Proof.
  revert t. induction s as [|c s IH]; intros t; [reflexivity|].
  unfold String.rev. cbn [String.rev_app].
  rewrite (IH (String c t)), (IH (String c "")), str_app_assoc. reflexivity.
Qed.

Lemma str_rev_cons (c : ascii) (s : string) :
  String.rev (String c s) = String.rev s ++ String c "".
Proof. unfold String.rev at 1. cbn [String.rev_app]. apply str_rev_app_spec. Qed.

Lemma str_rev_app_distr (s t : string) :
  String.rev (s ++ t) = String.rev t ++ String.rev s.
Proof.
  induction s as [|c s IH].
  - rewrite str_app_nil. symmetry. apply str_app_nil_r.
  - rewrite str_app_cons, !str_rev_cons, IH, str_app_assoc. reflexivity.
Qed.

Lemma str_rev_involutive (s : string) : String.rev (String.rev s) = s.
Proof.
  induction s as [|c s IH]; [reflexivity|].
  rewrite str_rev_cons, str_rev_app_distr, IH. reflexivity.
Qed.

Lemma str_exists_app (p : ascii → bool) (s t : string) :
  str_exists p (s ++ t) = str_exists p s || str_exists p t.
Proof.
  induction s as [|c s IH]; [reflexivity|].
  rewrite str_app_cons. cbn [str_exists]. rewrite IH. apply orb_assoc.
Qed.

Lemma str_exists_rev (p : ascii → bool) (s : string) :
  str_exists p (String.rev s) = str_exists p s.
Proof.
  induction s as [|c s IH]; [reflexivity|].
  rewrite str_rev_cons, str_exists_app, IH. cbn [str_exists].
  rewrite orb_false_r. apply orb_comm.
Qed.

Lemma nonempty_exists (s : string) :
  Text.nonempty s = str_exists (λ _, true) s.
Proof. destruct s; reflexivity. Qed.

Lemma nonempty_rev (s : string) :
  Text.nonempty (String.rev s) = Text.nonempty s.
Proof. rewrite !nonempty_exists. apply str_exists_rev. Qed.

Lemma lstrip_nonempty (s : string) :
  Text.nonempty (str_lstrip s) = str_exists (λ c, negb (char_isspace c)) s.
Proof.
  induction s as [|c s IH]; [reflexivity|].
  cbn [str_lstrip str_exists]. destruct (char_isspace c); [exact IH|reflexivity].
Qed.

Lemma lstrip_exists_not_space (s : string) :
  str_exists (λ c, negb (char_isspace c)) (str_lstrip s)
  = str_exists (λ c, negb (char_isspace c)) s.
Proof.
  induction s as [|c s IH]; [reflexivity|].
  cbn [str_lstrip]. destruct (char_isspace c) eqn:E; [|reflexivity].
  cbn [str_exists]. rewrite E. exact IH.
Qed.

(** [s.strip()] is non-empty exactly when [s] has a character that is
    not white space. *)
Lemma strip_nonempty (s : string) :
  Text.nonempty (str_strip s) = str_exists (λ c, negb (char_isspace c)) s.
Proof.
  unfold str_strip, str_rstrip.
  rewrite nonempty_rev, lstrip_nonempty, str_exists_rev.
  apply lstrip_exists_not_space.
Qed.

Lemma lstrip_head (s : string) : head_not_space (str_lstrip s) = true.
Proof.
  induction s as [|c s IH]; [reflexivity|].
  cbn [str_lstrip]. destruct (char_isspace c) eqn:E; [exact IH|].
  cbn [head_not_space]. rewrite E. reflexivity.
Qed.

Lemma lstrip_fixed (s : string) :
  head_not_space s = true → str_lstrip s = s.
Proof.
  destruct s as [|c s]; [reflexivity|].
  cbn [head_not_space str_lstrip]. destruct (char_isspace c);
    [discriminate|reflexivity].
Qed.

(** [lstrip] removes a prefix. *)
Lemma lstrip_suffix (s : string) : ∃ w : string, s = w ++ str_lstrip s.
Proof.
  induction s as [|c s [w IH]]; [exists ""; reflexivity|].
  cbn [str_lstrip]. destruct (char_isspace c).
  - exists (String c w). rewrite str_app_cons, <- IH. reflexivity.
  - exists "". reflexivity.
Qed.

(** [rstrip] removes a suffix. *)
Lemma rstrip_prefix (s : string) : ∃ w : string, s = str_rstrip s ++ w.
Proof.
  unfold str_rstrip.
  destruct (lstrip_suffix (String.rev s)) as [w Hw].
  exists (String.rev w).
  rewrite <- str_rev_app_distr, <- Hw, str_rev_involutive. reflexivity.
Qed.

Lemma head_not_space_prefix (s t : string) :
  head_not_space (s ++ t) = true → head_not_space s = true.
Proof. destruct s; [reflexivity|]. rewrite str_app_cons. trivial. Qed.

Lemma strip_is_stripped (s : string) :
  str_lstrip (str_strip s) = str_strip s
  ∧ str_rstrip (str_strip s) = str_strip s.
Proof.
  split.
  - apply lstrip_fixed. unfold str_strip.
    destruct (rstrip_prefix (str_lstrip s)) as [w Hw].
    apply (head_not_space_prefix _ w). rewrite <- Hw. apply lstrip_head.
  - unfold str_strip, str_rstrip. rewrite str_rev_involutive.
    rewrite (lstrip_fixed (str_lstrip _)) by apply lstrip_head.
    reflexivity.
Qed.

(** X3.  Every sentence returned by [simple_sentence_tokenize] is
    non-empty and has no white space at either end: stripping it on the
    left or on the right changes nothing. *)
Theorem sentences_nonempty_and_stripped (text sentence : string) :
  In sentence (Text.simple_sentence_tokenize text) →
  sentence ≠ ""
  ∧ str_lstrip sentence = sentence
  ∧ str_rstrip sentence = sentence.
Proof.
  unfold Text.simple_sentence_tokenize. intros Hin.
  apply in_map_iff in Hin as (piece & <- & Hin).
  apply List.filter_In in Hin as [_ Hne].
  split; [|apply strip_is_stripped].
  intros E. rewrite E in Hne. discriminate Hne.
Qed.

Lemma sentences_nonempty_and_stripped_witness :
  "This is bad." ≠ ""
  ∧ str_lstrip "This is bad." = "This is bad."
  ∧ str_rstrip "This is bad." = "This is bad.".
Proof.
  refine (sentences_nonempty_and_stripped
            "This is great.   This is bad.  " "This is bad." _).
  vm_compute. tauto.
Defined.

(** *** Sentences of a text that has words *)

Lemma word_not_separator (c : ascii) :
  re_word c = true → separator_char c = false.
Proof. destruct c as [[] [] [] [] [] [] [] []]; (reflexivity || discriminate). Qed.

Lemma word_not_space (c : ascii) :
  re_word c = true → negb (char_isspace c) = true.
Proof. destruct c as [[] [] [] [] [] [] [] []]; (reflexivity || discriminate). Qed.

Lemma str_take_span (p q : ascii → bool) (s : string) :
  (∀ c, p c = true → q c = true) →
  str_forall q (str_take (span_len p s) s) = true.
Proof.
  intros Hpq. induction s as [|c s IH]; [reflexivity|].
  cbn [span_len]. destruct (p c) eqn:E; [|reflexivity].
  cbn [str_take str_forall]. rewrite (Hpq c E). exact IH.
Qed.

Lemma str_take_add (n m : nat) (s : string) :
  str_take (n + m) s = str_take n s ++ str_take m (str_drop n s).
Proof.
  revert s. induction n as [|n IH]; intros s.
  - destruct s; reflexivity.
  - destruct s as [|c s]; [destruct m; reflexivity|].
    cbn [Nat.add str_take str_drop]. rewrite IH, str_app_cons. reflexivity.
Qed.

(** A sentence separator is at least one character long and consists of
    terminal marks and white space. *)
Lemma sentence_break_separator (s : string) (n : nat) :
  sentence_break s = Some n →
  (1 ≤ n)%nat ∧ str_forall separator_char (str_take n s) = true.
Proof.
  unfold sentence_break.
  set (marks := span_len re_terminal s).
  set (blanks := span_len char_isspace (str_drop marks s)).
  destruct (str_drop (marks + blanks) s) as [|c rest]; [discriminate|].
  destruct (0 <? marks)%nat eqn:Hm; [|discriminate].
  destruct (0 <? blanks)%nat; [|discriminate].
  destruct (ascii_upper c); [|discriminate].
  cbn [andb]. intros [= <-].
  apply Nat.ltb_lt in Hm. split; [lia|].
  rewrite str_take_add, str_forall_app.
  unfold marks at 1, blanks.
  rewrite !str_take_span; [reflexivity| |].
  - intros x Hx. unfold separator_char. rewrite Hx. apply orb_true_r.
  - intros x Hx. unfold separator_char. rewrite Hx. reflexivity.
Qed.

(** A word character of the text is never consumed by a separator, so it
    ends up in one of the pieces of the split. *)
Lemma split_scan_keeps_words (s cur : string) (skip : nat) :
  str_forall separator_char (str_take skip s) = true →
  str_exists re_word cur || str_exists re_word s = true →
  existsb (str_exists re_word) (split_scan skip cur s) = true.
Proof.
  revert cur skip. induction s as [|c s IH]; intros cur skip Hskip Hword.
  - cbn [split_scan existsb]. cbn [str_exists] in Hword.
    rewrite orb_false_r in *. exact Hword.
  - cbn [split_scan]. destruct skip as [|k].
    + destruct (sentence_break (String c s)) as [n|] eqn:Hb.
      * apply sentence_break_separator in Hb as [Hn Hsep].
        destruct n as [|n]; [lia|].
        cbn [str_take str_forall] in Hsep.
        apply andb_prop in Hsep as [Hc Hsep].
        cbn [existsb Nat.pred].
        destruct (str_exists re_word cur) eqn:Hcur; [reflexivity|].
        cbn [orb]. apply IH; [exact Hsep|].
        cbn [orb str_exists] in Hword |- *.
        destruct (re_word c) eqn:Hw; [|exact Hword].
        rewrite (word_not_separator c Hw) in Hc. discriminate Hc.
      * apply IH; [reflexivity|].
        rewrite str_exists_app. cbn [str_exists] in Hword |- *.
        rewrite orb_false_r, <- orb_assoc. exact Hword.
    + cbn [str_take str_forall] in Hskip.
      apply andb_prop in Hskip as [Hc Hskip].
      apply IH; [exact Hskip|].
      cbn [str_exists] in Hword.
      destruct (re_word c) eqn:Hw; [|exact Hword].
      rewrite (word_not_separator c Hw) in Hc. discriminate Hc.
Qed.

Lemma word_runs_nonempty (s cur : string) :
  word_runs cur s ≠ [] →
  Text.nonempty cur || str_exists re_word s = true.
Proof.
  revert cur. induction s as [|c s IH]; intros cur H.
  - cbn [word_runs] in H. destruct cur; [contradiction|reflexivity].
  - cbn [word_runs str_exists] in *. destruct (re_word c); [apply orb_true_r|].
    destruct cur as [|a cur]; [|reflexivity].
    cbn [flush app] in H. apply (IH "" H).
Qed.

Lemma str_exists_word_lower (s : string) :
  str_exists re_word (str_lower s) = str_exists re_word s.
Proof.
  induction s as [|c s IH]; [reflexivity|].
  cbn [str_lower str_map str_exists]. fold (str_lower s).
  rewrite re_word_lower, IH. reflexivity.
Qed.

Lemma str_exists_weaken (p q : ascii → bool) (s : string) :
  (∀ c, p c = true → q c = true) →
  str_exists p s = true → str_exists q s = true.
Proof.
  intros Hpq. induction s as [|c s IH]; [discriminate|].
  cbn [str_exists]. intros H. apply orb_prop in H as [H | H].
  - rewrite (Hpq c H). reflexivity.
  - rewrite (IH H). apply orb_true_r.
Qed.

Lemma tokens_give_sentences (text : string) :
  Text.simple_word_tokenize text ≠ [] →
  Text.simple_sentence_tokenize text ≠ [].
Proof.
  intros Htok.
  apply word_runs_nonempty in Htok. cbn [Text.nonempty orb] in Htok.
  rewrite str_exists_word_lower in Htok.
  assert (Hpieces : existsb (str_exists re_word) (re_split_sentences text) = true).
  { apply split_scan_keeps_words; [reflexivity | exact Htok]. }
  apply existsb_exists in Hpieces as (piece & Hin & Hword).
  unfold Text.simple_sentence_tokenize. intros Hnil.
  apply map_eq_nil in Hnil.
  assert (Hf : In piece (List.filter (λ s, Text.nonempty (str_strip s))
                           (re_split_sentences text))).
  { apply List.filter_In. split; [exact Hin|].
    rewrite strip_nonempty.
    apply (str_exists_weaken re_word); [apply word_not_space | exact Hword]. }
  rewrite Hnil in Hf. exact Hf.
Qed.

Lemma filter_nonempty_source {A} (p : A → bool) (xs : list A) :
  List.filter p xs ≠ [] → xs ≠ [].
Proof. intros H ->. apply H. reflexivity. Qed.

(** X4.  A text with at least one word token has at least one
    sentence.  Hence the sentence half of the guard of
    [calculate_scores] never fires on its own: in both variants the
    early return is taken exactly when there is no cleaned token. *)
Theorem words_imply_sentences (text : string) :
  (Text.simple_word_tokenize text ≠ [] →
   Text.simple_sentence_tokenize text ≠ [])
  ∧ (∀ stop_words : gset string,
       is_empty (Lexicon.cleaned_words_of stop_words text)
       || is_empty (Text.simple_sentence_tokenize text)
       = is_empty (Lexicon.cleaned_words_of stop_words text))
  ∧ is_empty (Bert.cleaned_words_of text)
    || is_empty (Text.simple_sentence_tokenize text)
    = is_empty (Bert.cleaned_words_of text).
Proof.
  split; [apply tokens_give_sentences|].
  split.
  - intros sw.
    destruct (Lexicon.cleaned_words_of sw text) eqn:E; [reflexivity|].
    cbn [is_empty orb]. apply is_empty_false, tokens_give_sentences.
    apply (filter_nonempty_source
             (λ word, str_isalnum word && negb (bool_decide (word ∈ sw)))).
    fold (Lexicon.cleaned_words_of sw text). rewrite E. discriminate.
  - destruct (Bert.cleaned_words_of text) eqn:E; [reflexivity|].
    cbn [is_empty orb]. apply is_empty_false, tokens_give_sentences.
    apply (filter_nonempty_source str_isalnum).
    fold (Bert.cleaned_words_of text). rewrite E. discriminate.
Qed.

Lemma words_imply_sentences_witness :
  Text.simple_sentence_tokenize "no capital after. the mark!" ≠ [].
Proof.
  refine (proj1 (words_imply_sentences "no capital after. the mark!") _).
  intros H. vm_compute in H. discriminate H.
Defined.

(** ** Further properties of the score vector *)

Lemma lexicon_readability (stop_words positive_words negative_words : gset string)
    (text : string) :
  Lexicon.cleaned_words_of stop_words text ≠ [] →
  drop 4 (Lexicon.calculate_scores stop_words positive_words negative_words text)
  = readability_fields (Lexicon.cleaned_words_of stop_words text)
      (Text.simple_sentence_tokenize text) text.
Proof.
  intros Hc.
  assert (Hs : Text.simple_sentence_tokenize text ≠ []).
  { apply tokens_give_sentences. revert Hc. apply filter_nonempty_source. }
  rewrite (lexicon_normal_result _ _ _ _ _
             (lexicon_normal_path stop_words positive_words negative_words
                text Hc Hs)).
  reflexivity.
Qed.

Lemma bert_readability (star_probabilities : string → result (list Q))
    (text : string) :
  Bert.cleaned_words_of text ≠ [] →
  drop 4 (Bert.calculate_scores star_probabilities text)
  = readability_fields (Bert.cleaned_words_of text)
      (Text.simple_sentence_tokenize text) text.
Proof.
  intros Hc.
  assert (Hs : Text.simple_sentence_tokenize text ≠ []).
  { apply tokens_give_sentences. revert Hc. apply filter_nonempty_source. }
  rewrite (bert_normal_result _ _ _
             (bert_normal_path star_probabilities text Hc Hs)).
  reflexivity.
Qed.

Lemma score_field_drop (scores : list value) (k i : nat) :
  score_field scores (k + i) = score_field (drop k scores) i.
Proof. unfold score_field. rewrite lookup_drop. reflexivity. Qed.

Lemma quotient_nonneg (a b : Z) :
  (0 ≤ a)%Z → (0 < b)%Z → (0 <= to_float a / to_float b)%Q.
Proof.
  intros Ha Hb. unfold to_float.
  apply Qle_shift_div_l.
  - change 0%Q with (inject_Z 0). rewrite <- Zlt_Qlt. exact Hb.
  - rewrite Qmult_0_l. change 0%Q with (inject_Z 0). rewrite <- Zle_Qle.
    exact Ha.
Qed.

Lemma quotient_le_1 (a b : Z) :
  (a ≤ b)%Z → (0 < b)%Z → (to_float a / to_float b <= 1)%Q.
Proof.
  intros Ha Hb. unfold to_float.
  apply Qle_shift_div_r.
  - change 0%Q with (inject_Z 0). rewrite <- Zlt_Qlt. exact Hb.
  - rewrite Qmult_1_l. rewrite <- Zle_Qle. exact Ha.
Qed.

Lemma quotient_ge_1 (a b : Z) :
  (b ≤ a)%Z → (0 < b)%Z → (1 <= to_float a / to_float b)%Q.
Proof.
  intros Ha Hb. unfold to_float.
  apply Qle_shift_div_l.
  - change 0%Q with (inject_Z 0). rewrite <- Zlt_Qlt. exact Hb.
  - rewrite Qmult_1_l. rewrite <- Zle_Qle. exact Ha.
Qed.

Lemma quotient_pos (a b : Z) :
  (0 < a)%Z → (0 < b)%Z → (0 < to_float a / to_float b)%Q.
Proof.
  intros Ha Hb. unfold to_float.
  apply Qlt_shift_div_l.
  - change 0%Q with (inject_Z 0). rewrite <- Zlt_Qlt. exact Hb.
  - rewrite Qmult_0_l. change 0%Q with (inject_Z 0). rewrite <- Zlt_Qlt.
    exact Ha.
Qed.

Lemma quotient_le_numerator (a b : Z) :
  (0 ≤ a)%Z → (1 ≤ b)%Z → (to_float a / to_float b <= to_float a)%Q.
Proof.
  intros Ha Hb. unfold to_float.
  apply Qle_shift_div_r.
  - change 0%Q with (inject_Z 0). rewrite <- Zlt_Qlt. lia.
  - rewrite <- inject_Z_mult, <- Zle_Qle. nia.
Qed.

Lemma int_sum_at_least (f : string → Z) (words : list string) :
  (∀ word, In word words → (1 ≤ f word)%Z) →
  (len words ≤ int_sum (map f words))%Z.
Proof.
  unfold len. induction words as [|w words IH]; intros Hf; [reflexivity|].
  cbn [map length]. rewrite int_sum_cons.
  pose proof (Hf w (or_introl eq_refl)).
  assert (Z.of_nat (length words) ≤ int_sum (map f words))%Z
    by (apply IH; intros x Hx; apply Hf; right; exact Hx).
  lia.
Qed.

Lemma syllable_count_ge_1 (word : string) : (1 ≤ Text.syllable_count word)%Z.
Proof. unfold Text.syllable_count. apply Z.le_max_l. Qed.

Lemma isalnum_len_ge_1 (word : string) :
  str_isalnum word = true → (1 ≤ str_len word)%Z.
Proof.
  destruct word; [discriminate|]. intros _. unfold str_len.
  cbn [String.length]. lia.
Qed.

(** Bounds on the readability fields computed from any non-empty list
    of alphanumeric tokens and any non-empty list of sentences. *)
Lemma readability_bounds (cleaned_words sentences : list string) (text : string) :
  cleaned_words ≠ [] → sentences ≠ [] →
  (∀ word, In word cleaned_words → str_isalnum word = true) →
  let fields := readability_fields cleaned_words sentences text in
  (score_field fields 5 == to_float (len cleaned_words))%Q
  ∧ (1 <= score_field fields 5)%Q
  ∧ (0 <= score_field fields 4 <= score_field fields 5)%Q
  ∧ (0 <= score_field fields 1 <= 1)%Q
  ∧ (0 < score_field fields 0 <= score_field fields 5)%Q
  ∧ (score_field fields 2
     == (4 # 10) * (score_field fields 0 + score_field fields 1))%Q
  ∧ (score_field fields 3 == score_field fields 0)%Q
  ∧ (1 <= score_field fields 6)%Q
  ∧ (1 <= score_field fields 8)%Q.
Proof.
  intros Hc Hs Halnum fields.
  pose proof (len_pos _ Hc) as Hlc. pose proof (len_pos _ Hs) as Hls.
  set (complex_words :=
         List.filter (λ word, (2 <? Text.syllable_count word)%Z) cleaned_words).
  assert (Hcx : (0 ≤ len complex_words ≤ len cleaned_words)%Z).
  { unfold len, complex_words.
    pose proof (List.filter_length_le
                  (λ word, (2 <? Text.syllable_count word)%Z) cleaned_words).
    lia. }
  unfold fields, readability_fields, score_field.
  cbn [lookup list_lookup default from_option id entry_Q]. fold complex_words.
  repeat apply conj.
  - reflexivity.
  - change 1%Q with (inject_Z 1). unfold to_float. rewrite <- Zle_Qle. lia.
  - change 0%Q with (inject_Z 0). unfold to_float. rewrite <- Zle_Qle. lia.
  - unfold to_float. rewrite <- Zle_Qle. lia.
  - apply quotient_nonneg; lia.
  - apply quotient_le_1; lia.
  - apply quotient_pos; lia.
  - apply quotient_le_numerator; lia.
  - reflexivity.
  - reflexivity.
  - apply quotient_ge_1; [|lia].
    apply int_sum_at_least. intros w _. apply syllable_count_ge_1.
  - apply quotient_ge_1; [|lia].
    apply int_sum_at_least. intros w Hw. apply isalnum_len_ge_1, Halnum, Hw.
Qed.

Lemma cleaned_words_alnum_lexicon (stop_words : gset string) (text word : string) :
  In word (Lexicon.cleaned_words_of stop_words text) → str_isalnum word = true.
Proof.
  unfold Lexicon.cleaned_words_of. intros H.
  apply List.filter_In in H as [_ H]. apply andb_prop in H as [H _]. exact H.
Qed.

Lemma cleaned_words_alnum_bert (text word : string) :
  In word (Bert.cleaned_words_of text) → str_isalnum word = true.
Proof.
  unfold Bert.cleaned_words_of. intros H.
  apply List.filter_In in H as [_ H]. exact H.
Qed.

Lemma readability_bounds_at (scores : list value)
    (cleaned_words sentences : list string) (text : string) :
  drop 4 scores = readability_fields cleaned_words sentences text →
  cleaned_words ≠ [] → sentences ≠ [] →
  (∀ word, In word cleaned_words → str_isalnum word = true) →
  (score_field scores 9 == to_float (len cleaned_words))%Q
  ∧ (1 <= score_field scores 9)%Q
  ∧ (0 <= score_field scores 8 <= score_field scores 9)%Q
  ∧ (0 <= score_field scores 5 <= 1)%Q
  ∧ (0 < score_field scores 4 <= score_field scores 9)%Q
  ∧ (score_field scores 6
     == (4 # 10) * (score_field scores 4 + score_field scores 5))%Q
  ∧ (score_field scores 7 == score_field scores 4)%Q
  ∧ (1 <= score_field scores 10)%Q
  ∧ (1 <= score_field scores 12)%Q.
Proof.
  intros Hd Hc Hs Ha.
  pose proof (readability_bounds cleaned_words sentences text Hc Hs Ha) as Hb.
  cbv zeta in Hb. rewrite <- Hd in Hb.
  rewrite <- (score_field_drop scores 4 0), <- (score_field_drop scores 4 1),
    <- (score_field_drop scores 4 2), <- (score_field_drop scores 4 3),
    <- (score_field_drop scores 4 4), <- (score_field_drop scores 4 5),
    <- (score_field_drop scores 4 6), <- (score_field_drop scores 4 8) in Hb.
  exact Hb.
Qed.

Lemma lexicon_bounds (stop_words positive_words negative_words : gset string)
    (text : string) :
  Lexicon.cleaned_words_of stop_words text ≠ [] →
  let scores :=
    Lexicon.calculate_scores stop_words positive_words negative_words text in
  (score_field scores 9
   == to_float (len (Lexicon.cleaned_words_of stop_words text)))%Q
  ∧ (1 <= score_field scores 9)%Q
  ∧ (0 <= score_field scores 8 <= score_field scores 9)%Q
  ∧ (0 <= score_field scores 5 <= 1)%Q
  ∧ (0 < score_field scores 4 <= score_field scores 9)%Q
  ∧ (score_field scores 6
     == (4 # 10) * (score_field scores 4 + score_field scores 5))%Q
  ∧ (score_field scores 7 == score_field scores 4)%Q
  ∧ (1 <= score_field scores 10)%Q
  ∧ (1 <= score_field scores 12)%Q.
Proof.
  intros Hc scores.
  apply (readability_bounds_at scores _ (Text.simple_sentence_tokenize text) text).
  - apply lexicon_readability, Hc.
  - exact Hc.
  - apply tokens_give_sentences. revert Hc. apply filter_nonempty_source.
  - apply cleaned_words_alnum_lexicon.
Qed.

Lemma bert_bounds (star_probabilities : string → result (list Q))
    (text : string) :
  Bert.cleaned_words_of text ≠ [] →
  let scores := Bert.calculate_scores star_probabilities text in
  (score_field scores 9 == to_float (len (Bert.cleaned_words_of text)))%Q
  ∧ (1 <= score_field scores 9)%Q
  ∧ (0 <= score_field scores 8 <= score_field scores 9)%Q
  ∧ (0 <= score_field scores 5 <= 1)%Q
  ∧ (0 < score_field scores 4 <= score_field scores 9)%Q
  ∧ (score_field scores 6
     == (4 # 10) * (score_field scores 4 + score_field scores 5))%Q
  ∧ (score_field scores 7 == score_field scores 4)%Q
  ∧ (1 <= score_field scores 10)%Q
  ∧ (1 <= score_field scores 12)%Q.
Proof.
  intros Hc scores.
  apply (readability_bounds_at scores _ (Text.simple_sentence_tokenize text) text).
  - apply bert_readability, Hc.
  - exact Hc.
  - apply tokens_give_sentences. revert Hc. apply filter_nonempty_source.
  - apply cleaned_words_alnum_bert.
Qed.

(** X5.  Whenever a text has a cleaned token, in both variants: the word
    count (field 10) is the number of cleaned tokens and at least 1; the
    complex word count (field 9) lies between 0 and the word count; the
    share of complex words (field 6) lies in [0, 1]; the average sentence
    length (field 5) is positive and at most the word count; and the fog
    index (field 7) is 0.4 times the sum of fields 5 and 6. *)
Theorem readability_counts_and_ratios :
  (∀ (stop_words positive_words negative_words : gset string) (text : string),
     Lexicon.cleaned_words_of stop_words text ≠ [] →
     let scores :=
       Lexicon.calculate_scores stop_words positive_words negative_words text in
     (score_field scores 9
      == to_float (len (Lexicon.cleaned_words_of stop_words text)))%Q
     ∧ (1 <= score_field scores 9)%Q
     ∧ (0 <= score_field scores 8 <= score_field scores 9)%Q
     ∧ (0 <= score_field scores 5 <= 1)%Q
     ∧ (0 < score_field scores 4 <= score_field scores 9)%Q
     ∧ (score_field scores 6
        == (4 # 10) * (score_field scores 4 + score_field scores 5))%Q)
  ∧ (∀ (star_probabilities : string → result (list Q)) (text : string),
       Bert.cleaned_words_of text ≠ [] →
       let scores := Bert.calculate_scores star_probabilities text in
       (score_field scores 9 == to_float (len (Bert.cleaned_words_of text)))%Q
       ∧ (1 <= score_field scores 9)%Q
       ∧ (0 <= score_field scores 8 <= score_field scores 9)%Q
       ∧ (0 <= score_field scores 5 <= 1)%Q
       ∧ (0 < score_field scores 4 <= score_field scores 9)%Q
       ∧ (score_field scores 6
          == (4 # 10) * (score_field scores 4 + score_field scores 5))%Q).
Proof.
  split.
  - intros sw pw nw text Hc scores.
    destruct (lexicon_bounds sw pw nw text Hc)
      as (H1 & H2 & H3 & H4 & H5 & H6 & _).
    repeat split; (exact H1 || exact H2 || apply H3 || apply H4 || apply H5
                   || exact H6).
  - intros probs text Hc scores.
    destruct (bert_bounds probs text Hc) as (H1 & H2 & H3 & H4 & H5 & H6 & _).
    repeat split; (exact H1 || exact H2 || apply H3 || apply H4 || apply H5
                   || exact H6).
Qed.

Lemma readability_counts_and_ratios_witness :
  (0 <= score_field
          (Lexicon.calculate_scores
             (list_to_set Lexicon.STOPWORDS)
             (list_to_set Lexicon.POSITIVE_WORDS)
             (list_to_set Lexicon.NEGATIVE_WORDS)
             "This is an excellent, remarkable dinner.") 5 <= 1)%Q.
Proof.
  refine (proj1 (proj2 (proj2 (proj2
    (proj1 readability_counts_and_ratios
       (list_to_set Lexicon.STOPWORDS) (list_to_set Lexicon.POSITIVE_WORDS)
       (list_to_set Lexicon.NEGATIVE_WORDS)
       "This is an excellent, remarkable dinner." _))))).
  intros H. vm_compute in H. discriminate H.
Defined.

(** X6.  Whenever a text has a cleaned token, the average number of
    syllables per word (field 11) and the average word length
    (field 13) are at least 1, in both variants. *)
Theorem averages_at_least_one :
  (∀ (stop_words positive_words negative_words : gset string) (text : string),
     Lexicon.cleaned_words_of stop_words text ≠ [] →
     let scores :=
       Lexicon.calculate_scores stop_words positive_words negative_words text in
     (1 <= score_field scores 10)%Q ∧ (1 <= score_field scores 12)%Q)
  ∧ (∀ (star_probabilities : string → result (list Q)) (text : string),
       Bert.cleaned_words_of text ≠ [] →
       let scores := Bert.calculate_scores star_probabilities text in
       (1 <= score_field scores 10)%Q ∧ (1 <= score_field scores 12)%Q).
Proof.
  split.
  - intros sw pw nw text Hc scores.
    destruct (lexicon_bounds sw pw nw text Hc)
      as (_ & _ & _ & _ & _ & _ & _ & H8 & H9).
    split; assumption.
  - intros probs text Hc scores.
    destruct (bert_bounds probs text Hc)
      as (_ & _ & _ & _ & _ & _ & _ & H8 & H9).
    split; assumption.
Qed.

Lemma averages_at_least_one_witness :
  (1 <= score_field
          (Bert.calculate_scores (λ _, Raise (ExternalError "no model"))
             "Rhythm is a dancer.") 10)%Q.
Proof.
  refine (proj1 (proj2 averages_at_least_one
                   (λ _, Raise (ExternalError "no model"))
                   "Rhythm is a dancer." _)).
  intros H. vm_compute in H. discriminate H.
Defined.

(** *** Sentiment fields of the lexicon variant *)

Lemma lexicon_sentiment_fields
    (stop_words positive_words negative_words : gset string) (text : string) :
  let cleaned_words := Lexicon.cleaned_words_of stop_words text in
  let p := Z.of_nat (members positive_words cleaned_words) in
  let n := Z.of_nat (members negative_words cleaned_words) in
  let scores :=
    Lexicon.calculate_scores stop_words positive_words negative_words text in
  cleaned_words ≠ [] →
  score_field scores 0 = to_float p
  ∧ score_field scores 1 = to_float n
  ∧ score_field scores 2
    = (to_float (p - n) / (to_float (p + n) + Lexicon.epsilon))%Q
  ∧ score_field scores 3
    = (to_float (p + n) / (to_float (len cleaned_words) + Lexicon.epsilon))%Q
  ∧ score_field scores 9 = to_float (len cleaned_words).
Proof.
  intros cleaned_words p n scores Hc.
  assert (Hs : Text.simple_sentence_tokenize text ≠ []).
  { apply tokens_give_sentences. revert Hc. apply filter_nonempty_source. }
  unfold scores.
  rewrite (lexicon_normal_result _ _ _ _ _
             (lexicon_normal_path stop_words positive_words negative_words
                text Hc Hs)).
  fold cleaned_words. rewrite !count_hits_members. fold p n.
  unfold score_field. cbn [lookup list_lookup default from_option id entry_Q].
  repeat split; reflexivity.
Qed.

Lemma members_disjoint (positive_words negative_words : gset string)
    (words : list string) :
  positive_words ## negative_words →
  (members positive_words words + members negative_words words
   ≤ length words)%nat.
Proof.
  intros Hd. unfold members.
  induction words as [|w words IH]; [reflexivity|].
  cbn [List.filter length].
  destruct (bool_decide (w ∈ positive_words)) eqn:Ep;
    destruct (bool_decide (w ∈ negative_words)) eqn:En; cbn [length];
    try lia.
  apply bool_decide_eq_true in Ep. apply bool_decide_eq_true in En.
  exfalso. exact (Hd w Ep En).
Qed.

(** X7.  Lexicon variant, text with a cleaned token: the positive and
    the negative score (fields 1 and 2) lie between 0 and the word count
    (field 10) and the subjectivity score (field 4) is at least 0; when
    the positive and the negative set share no word, the two scores add
    up to at most the word count and the subjectivity score is below 1. *)
Theorem lexicon_counts_and_subjectivity
    (stop_words positive_words negative_words : gset string) (text : string) :
  let scores :=
    Lexicon.calculate_scores stop_words positive_words negative_words text in
  Lexicon.cleaned_words_of stop_words text ≠ [] →
  (0 <= score_field scores 0 <= score_field scores 9)%Q
  ∧ (0 <= score_field scores 1 <= score_field scores 9)%Q
  ∧ (0 <= score_field scores 3)%Q
  ∧ (positive_words ## negative_words →
     (score_field scores 0 + score_field scores 1 <= score_field scores 9)%Q
     ∧ (score_field scores 3 < 1)%Q).
Proof.
  intros scores Hc.
  destruct (lexicon_sentiment_fields stop_words positive_words negative_words
              text Hc) as (H0 & H1 & _ & H3 & H9).
  fold scores in H0, H1, H3, H9. rewrite H0, H1, H3, H9.
  set (cleaned_words := Lexicon.cleaned_words_of stop_words text).
  pose proof (members_le_length positive_words cleaned_words) as Hp.
  pose proof (members_le_length negative_words cleaned_words) as Hn.
  set (p := members positive_words cleaned_words) in *.
  set (n := members negative_words cleaned_words) in *.
  assert (Hden : (0 < to_float (len cleaned_words) + Lexicon.epsilon)%Q)
    by apply plus_epsilon_pos, len_nonneg.
  unfold to_float, len in *.
  split; [|split; [|split]].
  - split.
    + change 0%Q with (inject_Z 0). rewrite <- Zle_Qle. lia.
    + rewrite <- Zle_Qle. lia.
  - split.
    + change 0%Q with (inject_Z 0). rewrite <- Zle_Qle. lia.
    + rewrite <- Zle_Qle. lia.
  - apply Qle_shift_div_l; [exact Hden|].
    rewrite Qmult_0_l. change 0%Q with (inject_Z 0). rewrite <- Zle_Qle. lia.
  - intros Hd.
    pose proof (members_disjoint positive_words negative_words cleaned_words Hd)
      as Hpn.
    fold p n in Hpn.
    assert (Hsum : (inject_Z (Z.of_nat p + Z.of_nat n)
                    <= inject_Z (Z.of_nat (length cleaned_words)))%Q)
      by (rewrite <- Zle_Qle; lia).
    split.
    + rewrite <- inject_Z_plus. exact Hsum.
    + apply Qlt_shift_div_r; [exact Hden|].
      pose proof epsilon_pos. lra.
Qed.

Lemma lexicon_counts_and_subjectivity_witness :
  (score_field
     (Lexicon.calculate_scores
        (list_to_set Lexicon.STOPWORDS) (list_to_set Lexicon.POSITIVE_WORDS)
        (list_to_set Lexicon.NEGATIVE_WORDS) "Great food. Bad service.") 3
   < 1)%Q.
Proof.
  refine (proj2 (proj2 (proj2 (proj2
    (lexicon_counts_and_subjectivity
       (list_to_set Lexicon.STOPWORDS) (list_to_set Lexicon.POSITIVE_WORDS)
       (list_to_set Lexicon.NEGATIVE_WORDS) "Great food. Bad service." _))) _)).
  - intros H. vm_compute in H. discriminate H.
  - refine (bool_decide_unpack _ _). vm_compute. exact I.
Defined.

(** X8.  Lexicon variant, text with a cleaned token: the polarity score
    (field 3) has the sign of the difference between the positive and
    the negative score: positive when there are more positive hits,
    zero when the two scores are equal, negative when there are more
    negative hits. *)
Theorem lexicon_polarity_sign
    (stop_words positive_words negative_words : gset string) (text : string) :
  let scores :=
    Lexicon.calculate_scores stop_words positive_words negative_words text in
  Lexicon.cleaned_words_of stop_words text ≠ [] →
  ((score_field scores 1 < score_field scores 0)%Q →
   (0 < score_field scores 2)%Q)
  ∧ ((score_field scores 0 == score_field scores 1)%Q →
     (score_field scores 2 == 0)%Q)
  ∧ ((score_field scores 0 < score_field scores 1)%Q →
     (score_field scores 2 < 0)%Q).
Proof.
  intros scores Hc.
  destruct (lexicon_sentiment_fields stop_words positive_words negative_words
              text Hc) as (H0 & H1 & H2 & _ & _).
  fold scores in H0, H1, H2. rewrite H0, H1, H2.
  set (p := Z.of_nat (members positive_words _)).
  set (n := Z.of_nat (members negative_words _)).
  assert (Hden : (0 < to_float (p + n) + Lexicon.epsilon)%Q)
    by (apply plus_epsilon_pos; unfold p, n; lia).
  unfold to_float in *.
  unfold Z.sub. rewrite inject_Z_plus, inject_Z_opp.
  split; [|split]; intros H.
  - apply Qlt_shift_div_l; [exact Hden | lra].
  - unfold Qdiv.
    assert (E : (inject_Z p + - inject_Z n == 0)%Q) by lra.
    rewrite E. apply Qmult_0_l.
  - apply Qlt_shift_div_r; [exact Hden | lra].
Qed.

Lemma lexicon_polarity_sign_witness :
  (0 < score_field
         (Lexicon.calculate_scores
            (list_to_set Lexicon.STOPWORDS) (list_to_set Lexicon.POSITIVE_WORDS)
            (list_to_set Lexicon.NEGATIVE_WORDS)
            "Great food. Excellent, if flawed, service.") 2)%Q.
Proof.
  refine (proj1
    (lexicon_polarity_sign
       (list_to_set Lexicon.STOPWORDS) (list_to_set Lexicon.POSITIVE_WORDS)
       (list_to_set Lexicon.NEGATIVE_WORDS)
       "Great food. Excellent, if flawed, service." _) _).
  - intros H. vm_compute in H. discriminate H.
  - vm_compute. reflexivity.
Defined.

(** *** Sentiment fields of the model variant *)

Lemma bert_sentiment_fields (star_probabilities : string → result (list Q))
    (text : string) :
  let sentiment := Bert.get_bert_sentiment star_probabilities text in
  let scores := Bert.calculate_scores star_probabilities text in
  Bert.cleaned_words_of text ≠ [] →
  take 4 scores
  = [VFloat sentiment.1.1; VFloat sentiment.1.2; VFloat sentiment.2;
     VFloat (Qabs sentiment.2)].
Proof.
  intros sentiment scores Hc.
  assert (Hs : Text.simple_sentence_tokenize text ≠ []).
  { apply tokens_give_sentences. revert Hc. apply filter_nonempty_source. }
  unfold scores.
  rewrite (bert_normal_result _ _ _
             (bert_normal_path star_probabilities text Hc Hs)).
  reflexivity.
Qed.

Lemma bert_sentiment_nonneg (star_probabilities : string → result (list Q))
    (text : string) :
  (∀ row, star_probabilities text = Ok row → nonneg_masses row) →
  let sentiment := Bert.get_bert_sentiment star_probabilities text in
  (0 <= sentiment.1.1)%Q ∧ (0 <= sentiment.1.2)%Q.
Proof.
  intros Hrow.
  unfold Bert.get_bert_sentiment, Bert.get_bert_sentiment_body.
  destruct (star_probabilities text) as [row|e]; step_bind;
    [|cbn; split; lra].
  destruct (Hrow row eq_refl) as (Hpos & Hneg & _).
  unfold Bert.index.
  destruct (row !! 2%nat) as [neutral|]; step_bind; [|cbn; split; lra].
  unfold truediv.
  destruct (Qeq_bool _ 0); step_bind; cbn [try_except fst snd];
    split; (lra || assumption).
Qed.

(** X9.  Model variant, text with a cleaned token, classifier masses
    non-negative: the positive and the negative score (fields 1 and 2)
    are at least 0 and the subjectivity score (field 4) lies in
    [0, 1]. *)
Theorem bert_scores_ranges (star_probabilities : string → result (list Q))
    (text : string) :
  let scores := Bert.calculate_scores star_probabilities text in
  Bert.cleaned_words_of text ≠ [] →
  (∀ row, star_probabilities text = Ok row → nonneg_masses row) →
  (0 <= score_field scores 0)%Q
  ∧ (0 <= score_field scores 1)%Q
  ∧ (0 <= score_field scores 3 <= 1)%Q.
Proof.
  intros scores Hc Hrow.
  pose proof (bert_sentiment_fields star_probabilities text Hc) as Hf.
  cbv zeta in Hf. fold scores in Hf.
  assert (Hlook : ∀ i, (i < 4)%nat →
            score_field scores i = score_field (take 4 scores) i).
  { intros i Hi. unfold score_field. rewrite lookup_take_lt by exact Hi.
    reflexivity. }
  rewrite (Hlook 0%nat), (Hlook 1%nat), (Hlook 3%nat), Hf by lia.
  unfold score_field. cbn [lookup list_lookup default from_option id entry_Q].
  destruct (bert_sentiment_nonneg star_probabilities text Hrow) as [Hp Hn].
  pose proof (bert_compound_bounds star_probabilities text Hrow) as Hb.
  split; [exact Hp|]. split; [exact Hn|].
  split; [apply Qabs_nonneg|].
  apply Qabs_Qle_condition. exact Hb.
Qed.

Lemma bert_scores_ranges_witness :
  (0 <= score_field
          (Bert.calculate_scores
             (λ _, Ok [1 # 10; 2 # 10; 3 # 10; 2 # 10; 2 # 10]%Q)
             "We loved it. They did not.") 3 <= 1)%Q.
Proof.
  refine (proj2 (proj2
    (bert_scores_ranges
       (λ _, Ok [1 # 10; 2 # 10; 3 # 10; 2 # 10; 2 # 10]%Q)
       "We loved it. They did not." _ _))).
  - intros H. vm_compute in H. discriminate H.
  - intros row [= <-]. apply nonneg_probabilities_masses.
    repeat (apply Forall_cons; split; [discriminate|]). apply Forall_nil_2.
Defined.

(** *** The two variants side by side *)

Lemma lexicon_degenerate (stop_words positive_words negative_words : gset string)
    (text : string) :
  Lexicon.cleaned_words_of stop_words text = [] →
  Lexicon.calculate_scores stop_words positive_words negative_words text
  = zero_vector.
Proof.
  intros H. unfold Lexicon.calculate_scores, Lexicon.calculate_scores_body.
  rewrite H. reflexivity.
Qed.

Lemma bert_degenerate (star_probabilities : string → result (list Q))
    (text : string) :
  Bert.cleaned_words_of text = [] →
  Bert.calculate_scores star_probabilities text = zero_vector.
Proof.
  intros H. unfold Bert.calculate_scores, Bert.calculate_scores_body.
  rewrite H. reflexivity.
Qed.

Lemma filter_and {A} (p q : A → bool) (xs : list A) :
  List.filter (λ x, p x && q x) xs = List.filter q (List.filter p xs).
Proof.
  induction xs as [|x xs IH]; [reflexivity|].
  cbn [List.filter]. destruct (p x); cbn [andb List.filter]; [|exact IH].
  destruct (q x); rewrite IH; reflexivity.
Qed.

Lemma cleaned_words_composition (stop_words : gset string) (text : string) :
  Lexicon.cleaned_words_of stop_words text
  = List.filter (λ word, negb (bool_decide (word ∈ stop_words)))
      (Bert.cleaned_words_of text).
Proof.
  unfold Lexicon.cleaned_words_of, Bert.cleaned_words_of. apply filter_and.
Qed.

Lemma cleaned_words_no_stopwords (text : string) :
  Lexicon.cleaned_words_of ∅ text = Bert.cleaned_words_of text.
Proof.
  rewrite cleaned_words_composition.
  induction (Bert.cleaned_words_of text) as [|w ws IH]; [reflexivity|].
  cbn [List.filter].
  rewrite (bool_decide_eq_false_2 (w ∈ (∅ : gset string)))
    by apply not_elem_of_empty.
  cbn [negb]. rewrite IH. reflexivity.
Qed.

(** X10.  The lexicon variant cleans the tokens in two steps that
    compose: the alphanumeric filter of the model variant, followed by
    the removal of the stop words.  So no cleaned token of the lexicon
    variant is a stop word, its word count never exceeds that of the
    model variant, and with an empty stop word set the two variants
    clean alike. *)
Theorem lexicon_cleaning_refines_bert_cleaning
    (stop_words : gset string) (text : string) :
  Lexicon.cleaned_words_of stop_words text
  = List.filter (λ word, negb (bool_decide (word ∈ stop_words)))
      (Bert.cleaned_words_of text)
  ∧ (∀ word : string,
       In word (Lexicon.cleaned_words_of stop_words text) →
       (word ∉ stop_words) ∧ In word (Bert.cleaned_words_of text))
  ∧ (len (Lexicon.cleaned_words_of stop_words text)
     ≤ len (Bert.cleaned_words_of text))%Z
  ∧ Lexicon.cleaned_words_of ∅ text = Bert.cleaned_words_of text.
Proof.
  split; [apply cleaned_words_composition|]. split; [|split].
  - intros word. rewrite cleaned_words_composition. intros H.
    apply List.filter_In in H as [Hin Hns]. split; [|exact Hin].
    apply negb_true_iff, bool_decide_eq_false in Hns. exact Hns.
  - rewrite cleaned_words_composition. unfold len.
    apply inj_le, List.filter_length_le.
  - apply cleaned_words_no_stopwords.
Qed.

Lemma lexicon_cleaning_refines_bert_cleaning_witness :
  ("great" ∉ (list_to_set Lexicon.STOPWORDS : gset string))
  ∧ In "great" (Bert.cleaned_words_of "This is great.").
Proof.
  refine (proj1 (proj2
    (lexicon_cleaning_refines_bert_cleaning
       (list_to_set Lexicon.STOPWORDS) "This is great.")) "great" _).
  vm_compute. tauto.
Defined.

(** X11.  The nine readability fields (5 to 13) of the model variant do
    not depend on the classifier, and they are the fields the lexicon
    variant computes with an empty stop word set.  When the body of
    [get_bert_sentiment] raises on a text with a cleaned token, only the
    four sentiment fields are lost: they are 0.0 and the vector is still
    the normal one. *)
Theorem readability_independent_of_sentiment :
  (∀ (star_probabilities star_probabilities' : string → result (list Q))
     (text : string),
     drop 4 (Bert.calculate_scores star_probabilities text)
     = drop 4 (Bert.calculate_scores star_probabilities' text))
  ∧ (∀ (positive_words negative_words : gset string)
       (star_probabilities : string → result (list Q)) (text : string),
       drop 4 (Lexicon.calculate_scores ∅ positive_words negative_words text)
       = drop 4 (Bert.calculate_scores star_probabilities text))
  ∧ (∀ (star_probabilities : string → result (list Q)) (text : string)
       (e : exn),
       Bert.cleaned_words_of text ≠ [] →
       Bert.get_bert_sentiment_body star_probabilities text = Raise e →
       Bert.calculate_scores star_probabilities text
       = ([VFloat 0; VFloat 0; VFloat 0; VFloat 0]
          ++ readability_fields (Bert.cleaned_words_of text)
               (Text.simple_sentence_tokenize text) text)%list).
Proof.
  split; [|split].
  - intros probs probs' text.
    destruct (Bert.cleaned_words_of text) as [|w ws] eqn:E.
    + rewrite !bert_degenerate by exact E. reflexivity.
    + rewrite !bert_readability by (rewrite E; discriminate). reflexivity.
  - intros pw nw probs text.
    destruct (Bert.cleaned_words_of text) as [|w ws] eqn:E.
    + rewrite bert_degenerate by exact E.
      rewrite lexicon_degenerate
        by (rewrite cleaned_words_no_stopwords; exact E).
      reflexivity.
    + rewrite bert_readability by (rewrite E; discriminate).
      rewrite lexicon_readability
        by (rewrite cleaned_words_no_stopwords, E; discriminate).
      rewrite cleaned_words_no_stopwords. reflexivity.
  - intros probs text e Hc Hraise.
    rewrite <- (take_drop 4 (Bert.calculate_scores probs text)).
    rewrite (bert_sentiment_fields probs text Hc), (bert_readability probs text Hc).
    unfold Bert.get_bert_sentiment. rewrite Hraise. reflexivity.
Qed.

Lemma readability_independent_of_sentiment_witness :
  Bert.calculate_scores (λ _, Raise (ExternalError "model not loaded"))
    "Rhythm is a dancer."
  = ([VFloat 0; VFloat 0; VFloat 0; VFloat 0]
     ++ readability_fields (Bert.cleaned_words_of "Rhythm is a dancer.")
          (Text.simple_sentence_tokenize "Rhythm is a dancer.")
          "Rhythm is a dancer.")%list.
Proof.
  refine (proj2 (proj2 readability_independent_of_sentiment)
    (λ _, Raise (ExternalError "model not loaded")) "Rhythm is a dancer."
    (ExternalError "model not loaded") _ eq_refl).
  intros H. vm_compute in H. discriminate H.
Defined.

(** ** Further properties of extraction and of the loop *)

Lemma str_app_nonempty_r (s t : string) (c : ascii) : s ++ String c t ≠ "".
Proof. destruct s; [discriminate|]. rewrite str_app_cons. discriminate. Qed.

(** X12.  [extract_article_text] returns the empty string exactly when
    fetching or parsing the page raises; a page that was fetched gives
    the heading (or nothing), one blank and the paragraphs joined by
    blanks, which is never empty. *)
Theorem extraction_empty_iff_failure
    (fetch_page : string → result (option string * list string))
    (url : string) :
  (Text.extract_article_text fetch_page url = ""
   ↔ ∃ e : exn, fetch_page url = Raise e)
  ∧ (∀ (heading : option string) (paragraphs : list string),
       fetch_page url = Ok (heading, paragraphs) →
       Text.extract_article_text fetch_page url
       = default "" heading ++ " " ++ str_join " " paragraphs).
Proof.
  unfold Text.extract_article_text. split.
  - destruct (fetch_page url) as [[heading paragraphs]|e]; step_bind;
      cbn [try_except].
    + split.
      * intros H. exfalso. revert H. apply str_app_nonempty_r.
      * intros [e He]. discriminate He.
    + split; [eauto | reflexivity].
  - intros heading paragraphs ->. reflexivity.
Qed.

Lemma extraction_empty_iff_failure_witness :
  Text.extract_article_text
    (λ _, Ok (None, ["First paragraph."; "Second one."])) "http://up.example"
  = default "" None ++ " " ++ str_join " " ["First paragraph."; "Second one."].
Proof.
  exact (proj2 (extraction_empty_iff_failure
                  (λ _, Ok (None, ["First paragraph."; "Second one."]))
                  "http://up.example")
           None ["First paragraph."; "Second one."] eq_refl).
Defined.

Lemma lexicon_scores_length
    (stop_words positive_words negative_words : gset string) (text : string) :
  length (Lexicon.calculate_scores stop_words positive_words negative_words text)
  = 13%nat.
Proof.
  destruct (Lexicon.cleaned_words_of stop_words text) as [|w ws] eqn:E.
  - rewrite lexicon_degenerate by exact E. reflexivity.
  - rewrite <- (take_drop 4 (Lexicon.calculate_scores _ _ _ text)) at 1.
    rewrite length_app, lexicon_readability by (rewrite E; discriminate).
    rewrite length_take.
    assert (Hs : Text.simple_sentence_tokenize text ≠ []).
    { apply tokens_give_sentences.
      apply (filter_nonempty_source
               (λ word, str_isalnum word
                        && negb (bool_decide (word ∈ stop_words)))).
      fold (Lexicon.cleaned_words_of stop_words text). rewrite E.
      discriminate. }
    assert (Hc : Lexicon.cleaned_words_of stop_words text ≠ [])
      by (rewrite E; discriminate).
    rewrite (lexicon_normal_result _ _ _ _ _
               (lexicon_normal_path stop_words positive_words negative_words
                  text Hc Hs)).
    reflexivity.
Qed.

Lemma bert_scores_length (star_probabilities : string → result (list Q))
    (text : string) :
  length (Bert.calculate_scores star_probabilities text) = 13%nat.
Proof.
  destruct (Bert.cleaned_words_of text) as [|w ws] eqn:E.
  - rewrite bert_degenerate by exact E. reflexivity.
  - assert (Hc : Bert.cleaned_words_of text ≠ [])
      by (rewrite E; discriminate).
    rewrite <- (take_drop 4 (Bert.calculate_scores _ text)).
    rewrite length_app, (bert_sentiment_fields _ _ Hc), (bert_readability _ _ Hc).
    reflexivity.
Qed.

(** One iteration of the loop when neither call raises. *)
Lemma process_record_total (extract : string → string)
    (scores_of : string → list value) (row : Batch.record) :
  Batch.process_record (λ url, Ok (extract url)) (λ text, Ok (scores_of text)) row
  = ([Batch.URL_ID row; Batch.CText (Batch.URL row)]
     ++ (if Text.nonempty (extract (Batch.URL row))
         then map Batch.CNum (scores_of (extract (Batch.URL row)))
         else replicate 13 Batch.CNone))%list.
Proof.
  unfold Batch.process_record, Batch.process_record_body. step_bind.
  destruct (Text.nonempty (extract (Batch.URL row))); reflexivity.
Qed.

Lemma loop_row_shape
    (fetch_page : string → result (option string * list string))
    (scores_of : string → list value)
    (df : list Batch.record) (i : nat) (row : Batch.record) :
  (∀ text, length (scores_of text) = 13%nat) →
  df !! i = Some row →
  ∃ metrics : list Batch.cell,
    Batch.main_loop
      (λ url, Ok (Text.extract_article_text fetch_page url))
      (λ text, Ok (scores_of text)) df !! i
    = Some ([Batch.URL_ID row; Batch.CText (Batch.URL row)] ++ metrics)%list
    ∧ length metrics = 13%nat
    ∧ ((∃ e, fetch_page (Batch.URL row) = Raise e) →
       metrics = replicate 13 Batch.CNone)
    ∧ (∀ page, fetch_page (Batch.URL row) = Ok page →
       metrics
       = map Batch.CNum
           (scores_of (Text.extract_article_text fetch_page (Batch.URL row)))).
Proof.
  intros Hlen Hi.
  rewrite main_loop_map, list_lookup_fmap, Hi. cbn [fmap option_fmap option_map].
  rewrite process_record_total.
  destruct (fetch_page (Batch.URL row)) as [[heading paragraphs]|e] eqn:Hf.
  - assert (Hne : Text.nonempty
                    (Text.extract_article_text fetch_page (Batch.URL row))
                  = true).
    { unfold Text.extract_article_text. rewrite Hf. step_bind.
      cbn [try_except].
      destruct (default "" heading ++ " " ++ str_join " " paragraphs) eqn:E;
        [|reflexivity].
      exfalso. revert E. apply str_app_nonempty_r. }
    rewrite Hne. eexists. split; [reflexivity|].
    split; [rewrite length_map; apply Hlen|].
    split; [intros [e He]; discriminate He | reflexivity].
  - assert (Hne : Text.nonempty
                    (Text.extract_article_text fetch_page (Batch.URL row))
                  = false).
    { unfold Text.extract_article_text. rewrite Hf. reflexivity. }
    rewrite Hne. eexists. split; [reflexivity|].
    split; [reflexivity|].
    split; [reflexivity | intros page Hp; discriminate Hp].
Qed.

(** X13.  Every row the loop emits, in either script, has 15 cells:
    the URL_ID and the URL of its record followed by 13 metric cells.
    The 13 cells are all null when the page could not be fetched and
    they are the 13 numbers of [calculate_scores], applied to the
    extracted text, when it could: a fetched page never gives nulls. *)
Theorem result_rows_shape :
  (∀ (fetch_page : string → result (option string * list string))
     (stop_words positive_words negative_words : gset string)
     (df : list Batch.record) (i : nat) (row : Batch.record),
     df !! i = Some row →
     ∃ metrics : list Batch.cell,
       Batch.lexicon_main_loop
         fetch_page stop_words positive_words negative_words df !! i
       = Some ([Batch.URL_ID row; Batch.CText (Batch.URL row)] ++ metrics)%list
       ∧ length metrics = 13%nat
       ∧ ((∃ e, fetch_page (Batch.URL row) = Raise e) →
          metrics = replicate 13 Batch.CNone)
       ∧ (∀ page, fetch_page (Batch.URL row) = Ok page →
          metrics
          = map Batch.CNum
              (Lexicon.calculate_scores
                 stop_words positive_words negative_words
                 (Text.extract_article_text fetch_page (Batch.URL row)))))
  ∧ (∀ (fetch_page : string → result (option string * list string))
       (star_probabilities : string → result (list Q))
       (df : list Batch.record) (i : nat) (row : Batch.record),
       df !! i = Some row →
       ∃ metrics : list Batch.cell,
         Batch.bert_main_loop fetch_page star_probabilities df !! i
         = Some ([Batch.URL_ID row; Batch.CText (Batch.URL row)] ++ metrics)%list
         ∧ length metrics = 13%nat
         ∧ ((∃ e, fetch_page (Batch.URL row) = Raise e) →
            metrics = replicate 13 Batch.CNone)
         ∧ (∀ page, fetch_page (Batch.URL row) = Ok page →
            metrics
            = map Batch.CNum
                (Bert.calculate_scores star_probabilities
                   (Text.extract_article_text fetch_page (Batch.URL row))))).
Proof.
  split.
  - intros fetch sw pw nw df i row Hi.
    apply (loop_row_shape fetch (Lexicon.calculate_scores sw pw nw) df i row);
      [apply lexicon_scores_length | exact Hi].
  - intros fetch probs df i row Hi.
    apply (loop_row_shape fetch (Bert.calculate_scores probs) df i row);
      [apply bert_scores_length | exact Hi].
Qed.

Lemma result_rows_shape_witness :
  ∃ metrics : list Batch.cell,
    Batch.bert_main_loop
      (λ _, Ok (Some "Title", ["We loved it."; "They did not."]))
      (λ _, Ok [1 # 10; 2 # 10; 3 # 10; 2 # 10; 2 # 10]%Q)
      [ {| Batch.URL_ID := Batch.CText "a1"; Batch.URL := "http://up.example" |} ]
      !! 0%nat
    = Some ([Batch.CText "a1"; Batch.CText "http://up.example"] ++ metrics)%list
    ∧ length metrics = 13%nat.
Proof.
  destruct (proj2 result_rows_shape
              (λ _, Ok (Some "Title", ["We loved it."; "They did not."]))
              (λ _, Ok [1 # 10; 2 # 10; 3 # 10; 2 # 10; 2 # 10]%Q)
              [ {| Batch.URL_ID := Batch.CText "a1";
                   Batch.URL := "http://up.example" |} ]
              0%nat
              {| Batch.URL_ID := Batch.CText "a1";
                 Batch.URL := "http://up.example" |}
              eq_refl) as (metrics & H1 & H2 & _).
  exists metrics. split; assumption.
Defined.

(** ** Writing the results back *)

Section WriteBack.

Context {sheet : Type} (set_cell : sheet → nat → nat → Batch.cell → sheet).

Lemma write_row_fold (i : nat) (cells : list (nat * Batch.cell)) (sh : sheet) :
  fold_left (λ sh '(j, value), set_cell sh i j value) cells sh
  = fold_left (apply_write set_cell)
      (map (λ '(j, value), (i, j, value)) cells) sh.
Proof.
  revert sh. induction cells as [|[j v] cells IH]; intros sh; [reflexivity|].
  cbn [fold_left map]. rewrite IH. reflexivity.
Qed.

Lemma write_rows_fold (rows : list (nat * list Batch.cell)) (sh : sheet) :
  fold_left
    (λ sh '(i, result),
       fold_left (λ sh '(j, value), set_cell sh i j value)
         (Sheet.enumerate 1 result) sh)
    rows sh
  = fold_left (apply_write set_cell)
      (flat_map
         (λ '(i, result),
            map (λ '(j, value), (i, j, value)) (Sheet.enumerate 1 result))
         rows) sh.
Proof.
  revert sh. induction rows as [|[i result] rows IH]; intros sh; [reflexivity|].
  cbn [fold_left flat_map]. rewrite IH, fold_left_app, write_row_fold.
  reflexivity.
Qed.

Lemma write_results_writes_from (sh : sheet) (results : list (list Batch.cell)) :
  Sheet.write_results set_cell sh results
  = fold_left (apply_write set_cell) (writes_from 2 results) sh.
Proof. unfold Sheet.write_results, writes_from. apply write_rows_fold. Qed.

End WriteBack.

Lemma trace_fold (ws acc : list (nat * nat * Batch.cell)) :
  fold_left
    (apply_write (λ trace i j value, (trace ++ [(i, j, value)])%list)) ws acc
  = (acc ++ ws)%list.
Proof.
  revert acc. induction ws as [|[[i j] v] ws IH]; intros acc.
  - cbn [fold_left]. rewrite app_nil_r. reflexivity.
  - cbn [fold_left]. rewrite IH. unfold apply_write. cbn [fst snd].
    rewrite <- app_assoc. reflexivity.
Qed.

Lemma cell_writes_closed (results : list (list Batch.cell)) :
  Sheet.cell_writes results = writes_from 2 results.
Proof.
  unfold Sheet.cell_writes. rewrite write_results_writes_from.
  apply trace_fold.
Qed.

Lemma enumerate_In {A} (xs : list A) (start k : nat) (x : A) :
  In (k, x) (Sheet.enumerate start xs)
  ↔ ∃ i : nat, xs !! i = Some x ∧ k = (start + i)%nat.
Proof.
  revert start. induction xs as [|y xs IH]; intros start.
  - cbn [Sheet.enumerate In]. split; [tauto|]. intros (i & Hi & _).
    destruct i; discriminate Hi.
  - cbn [Sheet.enumerate In]. rewrite IH. split.
    + intros [[= <- <-] | (i & Hi & ->)].
      * exists 0%nat. split; [reflexivity | lia].
      * exists (S i). split; [exact Hi | lia].
    + intros ([|i] & Hi & ->).
      * left. cbn in Hi. injection Hi as ->. f_equal. lia.
      * right. exists i. split; [exact Hi | lia].
Qed.

Lemma writes_from_In (results : list (list Batch.cell)) (start r c : nat)
    (v : Batch.cell) :
  In (r, c, v) (writes_from start results)
  ↔ ∃ (i j : nat) (row : list Batch.cell),
      results !! i = Some row ∧ row !! j = Some v
      ∧ r = (start + i)%nat ∧ c = (1 + j)%nat.
Proof.
  unfold writes_from. rewrite in_flat_map. split.
  - intros ([k row] & Hrow & Hin).
    apply enumerate_In in Hrow as (i & Hi & ->).
    apply in_map_iff in Hin as ([k v'] & [= <- <- <-] & Hcell).
    apply enumerate_In in Hcell as (j & Hj & ->).
    exists i, j, row. auto.
  - intros (i & j & row & Hi & Hj & -> & ->).
    exists ((start + i)%nat, row). split.
    + apply enumerate_In. exists i. auto.
    + apply in_map_iff. exists ((1 + j)%nat, v). split; [reflexivity|].
      apply enumerate_In. exists j. auto.
Qed.

Lemma enumerate_NoDup {A} (xs : list A) (start : nat) :
  NoDup (map fst (Sheet.enumerate start xs)).
Proof.
  revert start. induction xs as [|x xs IH]; intros start.
  - apply NoDup_nil_2.
  - cbn [Sheet.enumerate map fst]. apply NoDup_cons_2; [|apply IH].
    rewrite list_elem_of_In, in_map_iff. intros ([k y] & Hk & Hin).
    cbn [fst] in Hk. subst k.
    apply enumerate_In in Hin as (i & _ & Hi). lia.
Qed.

Lemma writes_from_NoDup (results : list (list Batch.cell)) (start : nat) :
  NoDup (map fst (writes_from start results)).
Proof.
  revert start. induction results as [|row results IH]; intros start.
  - apply NoDup_nil_2.
  - unfold writes_from. cbn [Sheet.enumerate flat_map].
    fold (writes_from (S start) results).
    rewrite map_app. apply NoDup_app. split; [|split].
    + rewrite map_map.
      rewrite (map_ext _ (λ jv, (start, fst jv)))
        by (intros [j v]; reflexivity).
      rewrite <- (map_map fst (λ j, (start, j))).
      apply (NoDup_fmap_2 (λ j, (start, j))), enumerate_NoDup.
    + intros [r c]. rewrite !list_elem_of_In, !in_map_iff.
      intros ([[r1 c1] v1] & [= <- <-] & H1) ([[r2 c2] v2] & [= <- <-] & H2).
      apply in_map_iff in H1 as ([j v] & [= <- <- <-] & _).
      apply writes_from_In in H2 as (i & _ & _ & _ & _ & Hr & _). lia.
    + apply IH.
Qed.

(** X14.  The write-back loops call [sheet.cell] once for every cell of
    every result row and for nothing else: the cell at position [j]
    (from 0) of result [i] goes to sheet row [i + 2], column [j + 1].
    No sheet cell is written twice, and row 1, the header, is never
    written.  Whatever the sheet does with a call, the loops amount to
    making these calls in order. *)
Theorem write_back_addresses :
  (∀ (sheet : Type) (set_cell : sheet → nat → nat → Batch.cell → sheet)
     (sh : sheet) (results : list (list Batch.cell)),
     Sheet.write_results set_cell sh results
     = fold_left (apply_write set_cell) (Sheet.cell_writes results) sh)
  ∧ (∀ (results : list (list Batch.cell)) (r c : nat) (v : Batch.cell),
       In (r, c, v) (Sheet.cell_writes results)
       ↔ ∃ (i j : nat) (row : list Batch.cell),
           results !! i = Some row ∧ row !! j = Some v
           ∧ r = (i + 2)%nat ∧ c = (j + 1)%nat)
  ∧ (∀ results : list (list Batch.cell),
       NoDup (map fst (Sheet.cell_writes results)))
  ∧ (∀ (results : list (list Batch.cell)) (r c : nat) (v : Batch.cell),
       In (r, c, v) (Sheet.cell_writes results) → (2 ≤ r)%nat ∧ (1 ≤ c)%nat).
Proof.
  assert (Hin : ∀ results r c v,
            In (r, c, v) (Sheet.cell_writes results)
            ↔ ∃ (i j : nat) (row : list Batch.cell),
                results !! i = Some row ∧ row !! j = Some v
                ∧ r = (i + 2)%nat ∧ c = (j + 1)%nat).
  { intros results r c v. rewrite cell_writes_closed, writes_from_In.
    split; intros (i & j & row & Hi & Hj & -> & ->); exists i, j, row;
      repeat split; (assumption || lia). }
  split; [|split; [|split]].
  - intros sheet set_cell sh results.
    rewrite cell_writes_closed. apply write_results_writes_from.
  - exact Hin.
  - intros results. rewrite cell_writes_closed. apply writes_from_NoDup.
  - intros results r c v H. apply Hin in H as (i & j & _ & _ & _ & -> & ->).
    lia.
Qed.

Lemma write_back_addresses_witness :
  (2 ≤ 3)%nat ∧ (1 ≤ 2)%nat.
Proof.
  refine (proj2 (proj2 (proj2 write_back_addresses))
            [[Batch.CText "a1"; Batch.CText "u1"];
             [Batch.CText "a2"; Batch.CText "u2"]]
            3%nat 2%nat (Batch.CText "u2") _).
  vm_compute. tauto.
Defined.

(** ** Loading the word lists *)

Lemma splitlines_scan_line (line rest cur : string) :
  single_line line = true →
  Files.splitlines_scan false cur (line ++ rest)
  = Files.splitlines_scan false (cur ++ line) rest.
Proof.
  unfold single_line. revert cur.
  induction line as [|c line IH]; intros cur Hl.
  - rewrite str_app_nil, str_app_nil_r. reflexivity.
  - cbn [str_forall] in Hl. apply andb_prop in Hl as [Hc Hl].
    apply negb_true_iff in Hc.
    rewrite str_app_cons. cbn [Files.splitlines_scan andb]. rewrite Hc.
    rewrite (IH _ Hl), str_app_assoc. reflexivity.
Qed.

Lemma splitlines_join (lines : list string) :
  Forall (λ line, single_line line = true) lines →
  last lines ≠ Some "" →
  Files.str_splitlines (str_join Files.newline lines) = lines.
Proof.
  unfold Files.str_splitlines.
  induction lines as [|line lines IH]; intros Hall Hlast; [reflexivity|].
  apply Forall_cons in Hall as [Hline Hall].
  destruct lines as [|line2 lines].
  - cbn [str_join].
    rewrite <- (str_app_nil_r line) at 1.
    rewrite (splitlines_scan_line line "" "" Hline), str_app_nil.
    cbn [Files.splitlines_scan].
    destruct line; [exfalso; apply Hlast; reflexivity | reflexivity].
  - change (str_join Files.newline (line :: line2 :: lines))
      with (line ++ Files.newline ++ str_join Files.newline (line2 :: lines)).
    rewrite (splitlines_scan_line line _ "" Hline), str_app_nil.
    unfold Files.newline at 1. rewrite str_app_cons, str_app_nil.
    cbn [Files.splitlines_scan andb].
    change (Files.line_boundary (ascii_of_N 10)) with true.
    change (between 13 13 (ascii_of_N 10)) with false.
    cbv iota. f_equal. apply IH; [exact Hall|].
    intros H. apply Hlast. exact H.
Qed.

(** X15.  Writing lines with a line feed between them and splitting the
    text again gives the lines back, provided that no line contains a
    line boundary character and the last line is not empty.  The three
    built-in word lists are such texts: splitting them gives the words
    they were written from. *)
Theorem splitlines_after_join (lines : list string) :
  (Forall (λ line, single_line line = true) lines →
   last lines ≠ Some "" →
   Files.str_splitlines (str_join Files.newline lines) = lines)
  ∧ Files.str_splitlines Files.POSITIVE_WORDS_text = Lexicon.POSITIVE_WORDS
  ∧ Files.str_splitlines Files.NEGATIVE_WORDS_text = Lexicon.NEGATIVE_WORDS
  ∧ Files.str_splitlines Files.STOPWORDS_text = Lexicon.STOPWORDS.
Proof.
  split; [apply splitlines_join|].
  repeat split; vm_compute; reflexivity.
Qed.

Lemma splitlines_after_join_witness :
  Files.str_splitlines (str_join Files.newline ["good"; ""; "great"])
  = ["good"; ""; "great"].
Proof.
  refine (proj1 (splitlines_after_join ["good"; ""; "great"]) _ _).
  - repeat (apply Forall_cons; split; [reflexivity|]). apply Forall_nil_2.
  - discriminate.
Defined.

Section LoadFacts.

Context {path : Type}.
Variable path_join : path → string → path.
Variable listdir : path → result (list string).
Variable read_text : path → result string.

(** One step of the loop of [load_stopwords]. *)
Let read_into (dir : path) (acc : result (gset string)) (file : string)
    : result (gset string) :=
  stop_words ← acc;
  let file_path := path_join dir file in
  content ← read_text file_path;
  Ok (stop_words ∪ Files.line_set content).

Lemma read_into_raise (dir : path) (files : list string) (e : exn) :
  fold_left (read_into dir) files (Raise e) = Raise e.
Proof. induction files as [|f files IH]; [reflexivity | exact IH]. Qed.

Lemma read_into_failure (dir : path) (files : list string) (file : string)
    (e : exn) (acc : result (gset string)) :
  In file files → read_text (path_join dir file) = Raise e →
  ∃ e' : exn, fold_left (read_into dir) files acc = Raise e'.
Proof.
  revert acc. induction files as [|f files IH]; intros acc Hin Hread;
    [destruct Hin|].
  cbn [fold_left].
  destruct (read_into dir acc f) as [s|e'] eqn:Hstep.
  - destruct Hin as [-> | Hin]; [|apply (IH _ Hin Hread)].
    unfold read_into in Hstep. destruct acc as [s0|e0]; [|discriminate].
    cbn [mbind result_bind bind] in Hstep. rewrite Hread in Hstep.
    discriminate Hstep.
  - exists e'. apply read_into_raise.
Qed.

Lemma read_into_success (dir : path) (files : list string) (acc : gset string) :
  (∀ file, In file files → ∃ content, read_text (path_join dir file) = Ok content) →
  ∃ words : gset string,
    fold_left (read_into dir) files (Ok acc) = Ok words
    ∧ ∀ word : string,
        word ∈ words
        ↔ word ∈ acc
          ∨ ∃ file content, In file files
              ∧ read_text (path_join dir file) = Ok content
              ∧ In word (Files.str_splitlines content).
Proof.
  revert acc. induction files as [|f files IH]; intros acc Hall.
  - exists acc. split; [reflexivity|]. intros word. split; [auto|].
    intros [H | (file & _ & [] & _)]. exact H.
  - destruct (Hall f (or_introl eq_refl)) as [content Hc].
    cbn [fold_left]. unfold read_into at 2. step_bind. rewrite Hc. step_bind.
    destruct (IH (acc ∪ Files.line_set content)) as (words & Hw & Hmem).
    { intros file Hin. apply Hall. right. exact Hin. }
    exists words. split; [exact Hw|].
    intros word. rewrite Hmem, elem_of_union. unfold Files.line_set.
    rewrite elem_of_list_to_set, list_elem_of_In. split.
    + intros [[H | H] | (file & c & Hin & Hr & Hl)].
      * left. exact H.
      * right. exists f, content. cbn [In]. auto.
      * right. exists file, c. cbn [In]. auto.
    + intros [H | (file & c & [<- | Hin] & Hr & Hl)].
      * left. left. exact H.
      * left. right. rewrite Hc in Hr. injection Hr as <-. exact Hl.
      * right. exists file, c. auto.
Qed.

Lemma load_stopwords_success (dir : path) (files : list string) :
  listdir dir = Ok files →
  (∀ file, In file files →
           ∃ content, read_text (path_join dir file) = Ok content) →
  ∀ word : string,
    word ∈ Files.load_stopwords path_join listdir read_text dir
    ↔ ∃ file content, In file files
        ∧ read_text (path_join dir file) = Ok content
        ∧ In word (Files.str_splitlines content).
Proof.
  intros Hls Hall word.
  unfold Files.load_stopwords, Files.load_stopwords_body.
  rewrite Hls. step_bind.
  destruct (read_into_success dir files ∅ Hall) as (words & Hw & Hmem).
  unfold read_into in Hw. rewrite Hw. cbn [try_except].
  rewrite Hmem. split; [|auto].
  intros [H | H]; [|exact H]. exfalso. revert H. apply not_elem_of_empty.
Qed.

Lemma load_stopwords_failure (dir : path) (files : list string)
    (file : string) (e : exn) :
  listdir dir = Ok files → In file files →
  read_text (path_join dir file) = Raise e →
  Files.load_stopwords path_join listdir read_text dir
  = Files.line_set Files.STOPWORDS_text.
Proof.
  intros Hls Hin Hread.
  unfold Files.load_stopwords, Files.load_stopwords_body.
  rewrite Hls. step_bind.
  destruct (read_into_failure dir files file e (Ok ∅) Hin Hread) as [e' He'].
  unfold read_into in He'. rewrite He'. reflexivity.
Qed.

(** X16.  [load_stopwords] is all or nothing.  If listing the directory
    raises, or reading any one of its files raises, the result is the
    built-in stop word list, whatever the other files hold.  If every
    file can be read, the result is exactly the set of the lines of all
    the files; in particular an empty directory gives the empty set and
    not the built-in list. *)
Theorem load_stopwords_all_or_nothing (dir : path) :
  (∀ e : exn,
     listdir dir = Raise e →
     Files.load_stopwords path_join listdir read_text dir
     = list_to_set Lexicon.STOPWORDS)
  ∧ (∀ (files : list string) (file : string) (e : exn),
       listdir dir = Ok files → In file files →
       read_text (path_join dir file) = Raise e →
       Files.load_stopwords path_join listdir read_text dir
       = list_to_set Lexicon.STOPWORDS)
  ∧ (∀ files : list string,
       listdir dir = Ok files →
       (∀ file, In file files →
                ∃ content, read_text (path_join dir file) = Ok content) →
       ∀ word : string,
         word ∈ Files.load_stopwords path_join listdir read_text dir
         ↔ ∃ file content, In file files
             ∧ read_text (path_join dir file) = Ok content
             ∧ In word (Files.str_splitlines content))
  ∧ (listdir dir = Ok [] →
     Files.load_stopwords path_join listdir read_text dir = ∅).
Proof.
  assert (Hdefault : Files.line_set Files.STOPWORDS_text
                     = list_to_set Lexicon.STOPWORDS).
  { unfold Files.line_set. apply (f_equal list_to_set).
    vm_compute. reflexivity. }
  unfold Files.load_stopwords, Files.load_stopwords_body.
  split; [|split; [|split]].
  - intros e He. rewrite He. exact Hdefault.
  - intros files file e Hls Hin Hread. rewrite Hls. step_bind.
    destruct (read_into_failure dir files file e (Ok ∅) Hin Hread) as [e' He'].
    unfold read_into in He'. rewrite He'. exact Hdefault.
  - intros files Hls Hall word. rewrite Hls. step_bind.
    destruct (read_into_success dir files ∅ Hall) as (words & Hw & Hmem).
    unfold read_into in Hw. rewrite Hw. cbn [try_except].
    rewrite Hmem. split; [|auto].
    intros [H | H]; [|exact H]. exfalso. revert H. apply not_elem_of_empty.
  - intros Hls. rewrite Hls. reflexivity.
Qed.

(** X17.  [load_master_dictionary] is all or nothing as well.  When both
    files can be read it returns the set of lines of each; when either
    read raises it returns both built-in lists, so an unreadable
    negative list also discards a readable positive list. *)
Theorem load_master_dictionary_all_or_nothing (dir : path) :
  (∀ positive negative : string,
     read_text (path_join dir "positive-words.txt") = Ok positive →
     read_text (path_join dir "negative-words.txt") = Ok negative →
     Files.load_master_dictionary path_join read_text dir
     = (list_to_set (Files.str_splitlines positive),
        list_to_set (Files.str_splitlines negative)))
  ∧ (∀ e : exn,
       read_text (path_join dir "positive-words.txt") = Raise e
       ∨ read_text (path_join dir "negative-words.txt") = Raise e →
       Files.load_master_dictionary path_join read_text dir
       = (list_to_set Lexicon.POSITIVE_WORDS,
          list_to_set Lexicon.NEGATIVE_WORDS)).
Proof.
  assert (Hdefault : (Files.line_set Files.POSITIVE_WORDS_text,
                      Files.line_set Files.NEGATIVE_WORDS_text)
                     = (list_to_set Lexicon.POSITIVE_WORDS,
                        list_to_set Lexicon.NEGATIVE_WORDS)).
  { unfold Files.line_set.
    assert (Hp : Files.str_splitlines Files.POSITIVE_WORDS_text
                 = Lexicon.POSITIVE_WORDS) by (vm_compute; reflexivity).
    assert (Hn : Files.str_splitlines Files.NEGATIVE_WORDS_text
                 = Lexicon.NEGATIVE_WORDS) by (vm_compute; reflexivity).
    rewrite Hp, Hn. reflexivity. }
  unfold Files.load_master_dictionary, Files.load_master_dictionary_body.
  split.
  - intros positive negative Hp Hn. rewrite Hp. step_bind. rewrite Hn.
    reflexivity.
  - intros e [Hp | Hn].
    + rewrite Hp. exact Hdefault.
    + destruct (read_text (path_join dir "positive-words.txt")); step_bind;
        [rewrite Hn|]; exact Hdefault.
Qed.

End LoadFacts.

Lemma load_stopwords_all_or_nothing_witness :
  Files.load_stopwords (λ dir file, dir ++ "/" ++ file)
    (λ _, Ok ["extra.txt"; "broken.bin"])
    (λ p, if String.eqb p "StopWords/broken.bin"
          then Raise (ExternalError "UnicodeDecodeError")
          else Ok "the")
    "StopWords"
  = list_to_set Lexicon.STOPWORDS.
Proof.
  exact (proj1 (proj2
    (load_stopwords_all_or_nothing (λ dir file, dir ++ "/" ++ file)
       (λ _, Ok ["extra.txt"; "broken.bin"])
       (λ p, if String.eqb p "StopWords/broken.bin"
             then Raise (ExternalError "UnicodeDecodeError")
             else Ok "the")
       "StopWords"))
    ["extra.txt"; "broken.bin"] "broken.bin"
    (ExternalError "UnicodeDecodeError")
    eq_refl (or_intror (or_introl eq_refl)) eq_refl).
Defined.

Lemma load_master_dictionary_all_or_nothing_witness :
  Files.load_master_dictionary (λ dir file, dir ++ "/" ++ file)
    (λ p, if String.eqb p "MasterDictionary/negative-words.txt"
          then Raise (ExternalError "FileNotFoundError")
          else Ok "fine")
    "MasterDictionary"
  = (list_to_set Lexicon.POSITIVE_WORDS, list_to_set Lexicon.NEGATIVE_WORDS).
Proof.
  exact (proj2
    (load_master_dictionary_all_or_nothing (λ dir file, dir ++ "/" ++ file)
       (λ p, if String.eqb p "MasterDictionary/negative-words.txt"
             then Raise (ExternalError "FileNotFoundError")
             else Ok "fine")
       "MasterDictionary")
    (ExternalError "FileNotFoundError") (or_intror eq_refl)).
Defined.

(** ** The word list files on disk *)

Lemma makedirs_from_subseteq (rest : list string) (disk disk' : Disk.fs)
    (done : list string) :
  Disk.makedirs_from disk done rest = Ok disk' → disk ⊆ disk'.
Proof.
  revert disk done. induction rest as [|name rest IH]; intros disk done H.
  - injection H as <-. reflexivity.
  - cbn [Disk.makedirs_from] in H.
    destruct (disk !! Disk.path_join done name) as [[c|]|] eqn:E.
    + discriminate H.
    + apply (IH _ _ H).
    + transitivity (<[Disk.path_join done name := Disk.Dir]> disk).
      * apply insert_subseteq, E.
      * apply (IH _ _ H).
Qed.

(** [makedirs] only adds directories, and only at the path it is given
    and above it. *)
Lemma makedirs_from_lookup (rest : list string) (disk disk' : Disk.fs)
    (done q : list string) :
  Disk.makedirs_from disk done rest = Ok disk' →
  disk' !! q = disk !! q
  ∨ (disk !! q = None ∧ disk' !! q = Some Disk.Dir
     ∧ q `prefix_of` (done ++ rest)%list).
Proof.
  revert disk done. induction rest as [|name rest IH]; intros disk done H.
  - injection H as <-. left. reflexivity.
  - cbn [Disk.makedirs_from] in H.
    assert (Hassoc : ((Disk.path_join done name) ++ rest
                      = done ++ name :: rest)%list).
    { unfold Disk.path_join. rewrite <- app_assoc. reflexivity. }
    destruct (disk !! Disk.path_join done name) as [[c|]|] eqn:E.
    + discriminate H.
    + destruct (IH _ _ H) as [Hq | (Hn & Hd & Hp)]; [left; exact Hq|].
      right. rewrite <- Hassoc. auto.
    + destruct (IH _ _ H) as [Hq | (Hn & Hd & Hp)].
      * destruct (decide (q = Disk.path_join done name)) as [-> | Hne].
        -- right. rewrite Hq, lookup_insert_eq. split; [exact E|].
           split; [reflexivity|]. rewrite <- Hassoc. apply prefix_app_r.
           reflexivity.
        -- left. rewrite Hq. apply lookup_insert_ne. congruence.
      * right. rewrite <- Hassoc.
        destruct (decide (q = Disk.path_join done name)) as [-> | Hne].
        -- rewrite lookup_insert_eq in Hn. discriminate Hn.
        -- rewrite lookup_insert_ne in Hn by congruence. auto.
Qed.

Lemma makedirs_from_dir (rest : list string) (disk disk' : Disk.fs)
    (done : list string) :
  Disk.makedirs_from disk done rest = Ok disk' → rest ≠ [] →
  disk' !! (done ++ rest)%list = Some Disk.Dir.
Proof.
  revert disk done. induction rest as [|name rest IH]; intros disk done H Hne;
    [contradiction|].
  cbn [Disk.makedirs_from] in H.
  assert (Hassoc : ((Disk.path_join done name) ++ rest
                    = done ++ name :: rest)%list).
  { unfold Disk.path_join. rewrite <- app_assoc. reflexivity. }
  assert (Hstep : ∀ d : Disk.fs,
            d !! Disk.path_join done name = Some Disk.Dir →
            Disk.makedirs_from d (Disk.path_join done name) rest = Ok disk' →
            disk' !! (done ++ name :: rest)%list = Some Disk.Dir).
  { intros d Hd Hm. destruct rest as [|name2 rest].
    - injection Hm as <-. exact Hd.
    - rewrite <- Hassoc. apply (IH _ _ Hm). discriminate. }
  destruct (disk !! Disk.path_join done name) as [[c|]|] eqn:E.
  - discriminate H.
  - apply (Hstep disk E H).
  - apply (Hstep _ (lookup_insert_eq _ _ _) H).
Qed.

(** On a disk that holds everything an earlier [makedirs] left behind,
    the same [makedirs] changes nothing. *)
Lemma makedirs_from_stable (rest : list string) (disk disk1 disk2 : Disk.fs)
    (done : list string) :
  Disk.makedirs_from disk done rest = Ok disk1 → disk1 ⊆ disk2 →
  Disk.makedirs_from disk2 done rest = Ok disk2.
Proof.
  revert disk done. induction rest as [|name rest IH]; intros disk done H Hsub;
    [reflexivity|].
  cbn [Disk.makedirs_from] in H |- *.
  assert (Hdir : ∀ d : Disk.fs,
            d !! Disk.path_join done name = Some Disk.Dir →
            Disk.makedirs_from d (Disk.path_join done name) rest = Ok disk1 →
            disk2 !! Disk.path_join done name = Some Disk.Dir).
  { intros d Hd Hm.
    apply (lookup_weaken disk1); [|exact Hsub].
    apply (lookup_weaken d); [exact Hd|].
    apply (makedirs_from_subseteq _ _ _ _ Hm). }
  destruct (disk !! Disk.path_join done name) as [[c|]|] eqn:E.
  - discriminate H.
  - rewrite (Hdir disk E H). apply (IH _ _ H Hsub).
  - rewrite (Hdir _ (lookup_insert_eq _ _ _) H). apply (IH _ _ H Hsub).
Qed.

Lemma put_if_missing_subseteq (disk : Disk.fs) (file : list string)
    (content : string) :
  disk ⊆ put_if_missing disk file content.
Proof.
  unfold put_if_missing. destruct (disk !! file) eqn:E; [reflexivity|].
  apply insert_subseteq, E.
Qed.

Lemma put_if_missing_exists (disk : Disk.fs) (file : list string)
    (content : string) :
  is_Some (put_if_missing disk file content !! file).
Proof.
  unfold put_if_missing. destruct (disk !! file) eqn:E.
  - rewrite E. eauto.
  - rewrite lookup_insert_eq. eauto.
Qed.

Lemma put_if_missing_other (disk : Disk.fs) (file q : list string)
    (content : string) :
  q ≠ file → put_if_missing disk file content !! q = disk !! q.
Proof.
  intros Hne. unfold put_if_missing. destruct (disk !! file); [reflexivity|].
  apply lookup_insert_ne. congruence.
Qed.

(** [write_if_missing] succeeds when the directory of the file exists. *)
Lemma write_if_missing_ok (disk : Disk.fs) (file : list string)
    (content : string) :
  file ≠ [] → disk !! removelast file = Some Disk.Dir →
  Disk.write_if_missing disk file content
  = Ok (put_if_missing disk file content).
Proof.
  intros Hne Hparent.
  unfold Disk.write_if_missing, Disk.path_exists, put_if_missing.
  destruct (disk !! file) eqn:E; [reflexivity|].
  destruct file as [|name file]; [contradiction|].
  unfold Disk.write_text.
  assert (H1 : Disk.is_dir disk (name :: file) = false).
  { unfold Disk.is_dir. rewrite E. reflexivity. }
  assert (H2 : Disk.is_dir disk (removelast (name :: file)) = true).
  { revert Hparent. generalize (removelast (name :: file)).
    intros parent Hparent. unfold Disk.is_dir.
    destruct parent; [reflexivity|]. rewrite Hparent. reflexivity. }
  rewrite H1, H2. reflexivity.
Qed.

Lemma write_if_missing_stable (disk disk2 : Disk.fs) (file : list string)
    (content : string) :
  put_if_missing disk file content ⊆ disk2 →
  Disk.write_if_missing disk2 file content = Ok disk2.
Proof.
  intros Hsub. unfold Disk.write_if_missing, Disk.path_exists.
  destruct (put_if_missing_exists disk file content) as [x Hx].
  rewrite (lookup_weaken _ _ _ _ Hx Hsub). reflexivity.
Qed.

(** The steps of a successful [create_word_lists]. *)
Lemma create_word_lists_steps (disk disk' : Disk.fs) :
  Disk.create_word_lists disk = Ok disk' →
  ∃ d1 d2 : Disk.fs,
    Disk.makedirs disk Disk.stopwords_path = Ok d1
    ∧ Disk.makedirs d1 Disk.master_dict_path = Ok d2
    ∧ disk'
      = put_if_missing
          (put_if_missing
             (put_if_missing d2 pos_file Files.POSITIVE_WORDS_text)
             neg_file Files.NEGATIVE_WORDS_text)
          stop_file Files.STOPWORDS_text.
Proof.
  unfold Disk.create_word_lists. intros H.
  destruct (Disk.makedirs disk Disk.stopwords_path) as [d1|e] eqn:E1;
    [|discriminate H].
  cbn [mbind result_bind bind] in H.
  destruct (Disk.makedirs d1 Disk.master_dict_path) as [d2|e] eqn:E2;
    [|discriminate H].
  cbn [mbind result_bind bind] in H.
  assert (Hstop : d1 !! Disk.stopwords_path = Some Disk.Dir).
  { apply (makedirs_from_dir _ _ _ [] E1). discriminate. }
  assert (Hmaster : d2 !! Disk.master_dict_path = Some Disk.Dir).
  { apply (makedirs_from_dir _ _ _ [] E2). discriminate. }
  assert (H12 : d1 ⊆ d2) by apply (makedirs_from_subseteq _ _ _ _ E2).
  fold pos_file neg_file stop_file in H.
  rewrite write_if_missing_ok in H; [|discriminate|exact Hmaster].
  cbn [mbind result_bind bind] in H.
  rewrite write_if_missing_ok in H; [|discriminate|].
  2:{ apply (lookup_weaken d2); [exact Hmaster|].
      apply put_if_missing_subseteq. }
  cbn [mbind result_bind bind] in H.
  rewrite write_if_missing_ok in H; [|discriminate|].
  2:{ apply (lookup_weaken d1); [exact Hstop|].
      etransitivity; [exact H12|].
      etransitivity; apply put_if_missing_subseteq. }
  injection H as <-. exists d1, d2. auto.
Qed.

Lemma put_if_missing_lookup (disk : Disk.fs) (file : list string)
    (content : string) :
  put_if_missing disk file content !! file
  = match disk !! file with
    | Some x => Some x
    | None => Some (Disk.File content)
    end.
Proof.
  unfold put_if_missing. destruct (disk !! file) eqn:E; [exact E|].
  apply lookup_insert_eq.
Qed.

(** A path with more components than [p] is untouched by
    [makedirs p]. *)
Lemma makedirs_deeper (disk disk' : Disk.fs) (p q : list string) :
  Disk.makedirs disk p = Ok disk' → (length p < length q)%nat →
  disk' !! q = disk !! q.
Proof.
  intros H Hlen.
  destruct (makedirs_from_lookup _ _ _ [] q H) as [Hq | (_ & _ & Hp)];
    [exact Hq|].
  apply prefix_length in Hp. cbn [app] in Hp. lia.
Qed.

(** [makedirs] neither creates nor changes a file. *)
Lemma makedirs_files (disk disk' : Disk.fs) (p q : list string) (c : string) :
  Disk.makedirs disk p = Ok disk' →
  disk' !! q = Some (Disk.File c) → disk !! q = Some (Disk.File c).
Proof.
  intros H Hq.
  destruct (makedirs_from_lookup _ _ _ [] q H) as [E | (_ & E & _)].
  - rewrite <- E. exact Hq.
  - rewrite E in Hq. discriminate Hq.
Qed.

Lemma create_word_lists_lookup_file (disk disk' : Disk.fs)
    (file : list string) (default_text : string) :
  Disk.create_word_lists disk = Ok disk' →
  In (file, default_text)
    [(pos_file, Files.POSITIVE_WORDS_text);
     (neg_file, Files.NEGATIVE_WORDS_text);
     (stop_file, Files.STOPWORDS_text)] →
  disk' !! file
  = match disk !! file with
    | Some x => Some x
    | None => Some (Disk.File default_text)
    end.
Proof.
  intros H Hin.
  destruct (create_word_lists_steps _ _ H) as (d1 & d2 & E1 & E2 & ->).
  assert (Hd2 : ∀ q : list string, length q = 3%nat → d2 !! q = disk !! q).
  { intros q Hq.
    rewrite (makedirs_deeper _ _ _ q E2) by (rewrite Hq; cbn; lia).
    apply (makedirs_deeper _ _ _ q E1). rewrite Hq. cbn. lia. }
  destruct Hin as [[= <- <-] | [[= <- <-] | [[= <- <-] | []]]].
  - rewrite !put_if_missing_other by discriminate.
    rewrite put_if_missing_lookup, Hd2 by reflexivity. reflexivity.
  - rewrite put_if_missing_other by discriminate.
    rewrite put_if_missing_lookup, put_if_missing_other by discriminate.
    rewrite Hd2 by reflexivity. reflexivity.
  - rewrite put_if_missing_lookup, !put_if_missing_other by discriminate.
    rewrite Hd2 by reflexivity. reflexivity.
Qed.

(** X18.  A successful [create_word_lists] keeps every file and
    directory that was on the disk as it was, makes the two directories,
    and leaves each of the three word list paths with what was there
    before or, if there was nothing, with the built-in list; no other
    file appears.  Running it again changes nothing. *)
Theorem create_word_lists_keeps_and_completes (disk disk' : Disk.fs) :
  Disk.create_word_lists disk = Ok disk' →
  disk ⊆ disk'
  ∧ disk' !! Disk.stopwords_path = Some Disk.Dir
  ∧ disk' !! Disk.master_dict_path = Some Disk.Dir
  ∧ (∀ (file : list string) (default_text : string),
       In (file, default_text)
         [(pos_file, Files.POSITIVE_WORDS_text);
          (neg_file, Files.NEGATIVE_WORDS_text);
          (stop_file, Files.STOPWORDS_text)] →
       disk' !! file
       = match disk !! file with
         | Some x => Some x
         | None => Some (Disk.File default_text)
         end)
  ∧ (∀ (q : list string) (c : string),
       disk' !! q = Some (Disk.File c) →
       disk !! q = Some (Disk.File c) ∨ In q [pos_file; neg_file; stop_file])
  ∧ Disk.create_word_lists disk' = Ok disk'.
Proof.
  intros H.
  pose proof (create_word_lists_lookup_file disk disk') as Hfiles.
  destruct (create_word_lists_steps _ _ H) as (d1 & d2 & E1 & E2 & Hd).
  set (d3 := put_if_missing d2 pos_file Files.POSITIVE_WORDS_text) in Hd.
  set (d4 := put_if_missing d3 neg_file Files.NEGATIVE_WORDS_text) in Hd.
  assert (H01 : disk ⊆ d1) by apply (makedirs_from_subseteq _ _ _ _ E1).
  assert (H12 : d1 ⊆ d2) by apply (makedirs_from_subseteq _ _ _ _ E2).
  assert (H23 : d2 ⊆ d3) by apply put_if_missing_subseteq.
  assert (H34 : d3 ⊆ d4) by apply put_if_missing_subseteq.
  assert (H45 : d4 ⊆ disk') by (subst disk'; apply put_if_missing_subseteq).
  assert (H25 : d2 ⊆ disk')
    by (etransitivity; [exact H23|]; etransitivity; eassumption).
  assert (H15 : d1 ⊆ disk') by (etransitivity; eassumption).
  split; [etransitivity; eassumption|].
  split.
  { apply (lookup_weaken d1); [|exact H15].
    apply (makedirs_from_dir _ _ _ [] E1). discriminate. }
  split.
  { apply (lookup_weaken d2); [|exact H25].
    apply (makedirs_from_dir _ _ _ [] E2). discriminate. }
  split; [intros file default_text Hin; apply (Hfiles file default_text H Hin)|].
  split.
  - intros q c Hq.
    destruct (decide (q = stop_file)) as [-> | N1]; [right; cbn; auto|].
    destruct (decide (q = neg_file)) as [-> | N2]; [right; cbn; auto|].
    destruct (decide (q = pos_file)) as [-> | N3]; [right; cbn; auto|].
    left. subst disk'. unfold d4, d3 in Hq.
    rewrite !put_if_missing_other in Hq by assumption.
    apply (makedirs_files _ _ _ _ _ E1), (makedirs_files _ _ _ _ _ E2), Hq.
  - unfold Disk.create_word_lists, Disk.makedirs.
    rewrite (makedirs_from_stable _ _ _ _ [] E1 H15). step_bind.
    rewrite (makedirs_from_stable _ _ _ _ [] E2 H25). step_bind.
    fold pos_file neg_file stop_file.
    rewrite (write_if_missing_stable d2) by
      (fold d3; etransitivity; eassumption).
    step_bind.
    rewrite (write_if_missing_stable d3) by (fold d4; exact H45).
    step_bind.
    apply (write_if_missing_stable d4). rewrite Hd. reflexivity.
Qed.


Lemma makedirs_two_ok (disk : Disk.fs) (a b : string) :
  (∀ c, disk !! [a] ≠ Some (Disk.File c)) →
  (∀ c, disk !! [a; b] ≠ Some (Disk.File c)) →
  ∃ disk' : Disk.fs, Disk.makedirs disk [a; b] = Ok disk'.
Proof.
  intros Ha Hb. unfold Disk.makedirs.
  cbn [Disk.makedirs_from Disk.path_join app].
  destruct (disk !! [a]) as [[c|]|] eqn:E1; [destruct (Ha c eq_refl)| |].
  - destruct (disk !! [a; b]) as [[c|]|] eqn:E2; [destruct (Hb c eq_refl)| |];
      eauto.
  - rewrite lookup_insert_ne by discriminate.
    destruct (disk !! [a; b]) as [[c|]|] eqn:E2; [destruct (Hb c eq_refl)| |];
      eauto.
Qed.

Lemma makedirs_two_raise (disk : Disk.fs) (a b c : string) :
  disk !! [a] = Some (Disk.File c) ∨ disk !! [a; b] = Some (Disk.File c) →
  ∃ e : exn, Disk.makedirs disk [a; b] = Raise e.
Proof.
  intros H. unfold Disk.makedirs.
  cbn [Disk.makedirs_from Disk.path_join app].
  destruct (disk !! [a]) as [[c1|]|] eqn:E1; [eauto| |].
  - destruct H as [H | H]; [discriminate H|]. rewrite H. eauto.
  - destruct H as [H | H]; [discriminate H|].
    rewrite lookup_insert_ne by discriminate. rewrite H. eauto.
Qed.

(** [create_word_lists] succeeds when none of the three directories it
    needs is taken by a file. *)
Lemma create_word_lists_ok (disk : Disk.fs) :
  (∀ (p : list string) (c : string),
     In p [Disk.base_path; Disk.stopwords_path; Disk.master_dict_path] →
     disk !! p ≠ Some (Disk.File c)) →
  ∃ disk' : Disk.fs, Disk.create_word_lists disk = Ok disk'.
Proof.
  intros Hfree.
  destruct (makedirs_two_ok disk "Path" "StopWords") as [d1 E1].
  { intros c. apply Hfree. cbn. auto. }
  { intros c. apply (Hfree Disk.stopwords_path). cbn. auto. }
  assert (Hd1 : ∀ p c,
            In p [Disk.base_path; Disk.master_dict_path] →
            d1 !! p ≠ Some (Disk.File c)).
  { intros p c Hin Hp.
    apply (makedirs_files _ _ Disk.stopwords_path _ _ E1) in Hp.
    revert Hp. apply Hfree. cbn in Hin |- *. tauto. }
  destruct (makedirs_two_ok d1 "Path" "MasterDictionary") as [d2 E2].
  { intros c. apply (Hd1 Disk.base_path). cbn. auto. }
  { intros c. apply (Hd1 Disk.master_dict_path). cbn. auto. }
  assert (Hstop : d1 !! Disk.stopwords_path = Some Disk.Dir).
  { apply (makedirs_from_dir _ _ _ [] E1). discriminate. }
  assert (Hmaster : d2 !! Disk.master_dict_path = Some Disk.Dir).
  { apply (makedirs_from_dir _ _ _ [] E2). discriminate. }
  assert (H12 : d1 ⊆ d2) by apply (makedirs_from_subseteq _ _ _ _ E2).
  unfold Disk.create_word_lists.
  change (Disk.makedirs disk Disk.stopwords_path)
    with (Disk.makedirs disk ["Path"; "StopWords"]).
  rewrite E1. step_bind.
  change (Disk.makedirs d1 Disk.master_dict_path)
    with (Disk.makedirs d1 ["Path"; "MasterDictionary"]).
  rewrite E2. step_bind.
  rewrite write_if_missing_ok; [|discriminate|exact Hmaster]. step_bind.
  rewrite write_if_missing_ok; [|discriminate|]. 2:{
    apply (lookup_weaken d2); [exact Hmaster|].
    apply put_if_missing_subseteq. }
  step_bind.
  rewrite write_if_missing_ok; [eauto|discriminate|].
  apply (lookup_weaken d1); [exact Hstop|].
  etransitivity; [exact H12|].
  etransitivity; apply put_if_missing_subseteq.
Qed.

Lemma load_lexicon_ok (disk disk' : Disk.fs) :
  Disk.create_word_lists disk = Ok disk' →
  ∃ stop_words positive_words negative_words : gset string,
    Disk.load_lexicon disk
    = Ok (disk', (stop_words, positive_words, negative_words)).
Proof.
  intros H. unfold Disk.load_lexicon. rewrite H. step_bind.
  destruct (Files.load_master_dictionary _ _ _) as [p n]. eauto.
Qed.

Lemma empty_disk_free (p : list string) (c : string) :
  (∅ : Disk.fs) !! p ≠ Some (Disk.File c).
Proof. rewrite lookup_empty. discriminate. Qed.

Lemma one_list_disk_free (content : string) (p : list string) (c : string) :
  In p [Disk.base_path; Disk.stopwords_path; Disk.master_dict_path] →
  (<[pos_file := Disk.File content]> (∅ : Disk.fs)) !! p ≠ Some (Disk.File c).
Proof.
  intros Hin. rewrite lookup_insert_ne; [apply empty_disk_free|].
  destruct Hin as [<- | [<- | [<- | []]]]; discriminate.
Qed.

Lemma create_word_lists_keeps_and_completes_witness :
  ∃ disk' : Disk.fs,
    Disk.create_word_lists
      (<[pos_file := Disk.File "splendid"]> (∅ : Disk.fs)) = Ok disk'
    ∧ disk' !! pos_file = Some (Disk.File "splendid")
    ∧ disk' !! neg_file = Some (Disk.File Files.NEGATIVE_WORDS_text).
Proof.
  destruct (create_word_lists_ok _ (one_list_disk_free "splendid"))
    as [disk' E].
  exists disk'. split; [exact E|].
  destruct (create_word_lists_keeps_and_completes _ _ E)
    as (_ & _ & _ & Hfiles & _).
  split.
  - rewrite (Hfiles pos_file Files.POSITIVE_WORDS_text) by (cbn; auto).
    rewrite lookup_insert_eq. reflexivity.
  - rewrite (Hfiles neg_file Files.NEGATIVE_WORDS_text) by (cbn; auto).
    rewrite lookup_insert_ne by discriminate. reflexivity.
Defined.

(** X19.  [create_word_lists] succeeds exactly when none of the paths
    Path, Path/StopWords and Path/MasterDictionary is taken by a file;
    when one of them is, it raises, and [main] ends without loading a
    lexicon. *)
Theorem create_word_lists_succeeds_iff (disk : Disk.fs) :
  ((∃ disk' : Disk.fs, Disk.create_word_lists disk = Ok disk')
   ↔ ∀ (p : list string) (c : string),
       In p [Disk.base_path; Disk.stopwords_path; Disk.master_dict_path] →
       disk !! p ≠ Some (Disk.File c))
  ∧ ((∃ e : exn, Disk.create_word_lists disk = Raise e) →
     ∃ e : exn, Disk.load_lexicon disk = Raise e).
Proof.
  split.
  - split.
    + intros [disk' H] p c Hin Hp.
      destruct (create_word_lists_steps _ _ H) as (d1 & d2 & E1 & E2 & Hd).
      destruct Hin as [<- | [<- | [<- | []]]].
      * destruct (makedirs_two_raise disk "Path" "StopWords" c (or_introl Hp))
          as [e He].
        unfold Disk.stopwords_path, Disk.base_path, Disk.path_join in E1.
        cbn [app] in E1. rewrite He in E1. discriminate E1.
      * destruct (makedirs_two_raise disk "Path" "StopWords" c (or_intror Hp))
          as [e He].
        unfold Disk.stopwords_path, Disk.base_path, Disk.path_join in E1.
        cbn [app] in E1. rewrite He in E1. discriminate E1.
      * assert (Hp1 : d1 !! Disk.master_dict_path = Some (Disk.File c)).
        { apply (lookup_weaken disk); [exact Hp|].
          apply (makedirs_from_subseteq _ _ _ _ E1). }
        destruct (makedirs_two_raise d1 "Path" "MasterDictionary" c
                    (or_intror Hp1)) as [e He].
        unfold Disk.master_dict_path, Disk.base_path, Disk.path_join in E2.
        cbn [app] in E2. rewrite He in E2. discriminate E2.
    + apply create_word_lists_ok.
  - intros [e He]. unfold Disk.load_lexicon. rewrite He. eauto.
Qed.

Lemma create_word_lists_succeeds_iff_witness :
  ∃ e : exn,
    Disk.load_lexicon
      (<[Disk.stopwords_path := Disk.File "not a directory"]> (∅ : Disk.fs))
    = Raise e.
Proof.
  refine (proj2 (create_word_lists_succeeds_iff
                   (<[Disk.stopwords_path := Disk.File "not a directory"]>
                      (∅ : Disk.fs))) _).
  unfold Disk.create_word_lists.
  destruct (makedirs_two_raise
              (<[Disk.stopwords_path := Disk.File "not a directory"]>
                 (∅ : Disk.fs))
              "Path" "StopWords" "not a directory"
              (or_intror (lookup_insert_eq _ _ _))) as [e He].
  exists e.
  change (Disk.makedirs
            (<[Disk.stopwords_path := Disk.File "not a directory"]>
               (∅ : Disk.fs)) Disk.stopwords_path)
    with (Disk.makedirs
            (<[Disk.stopwords_path := Disk.File "not a directory"]>
               (∅ : Disk.fs)) ["Path"; "StopWords"]).
  rewrite He. reflexivity.
Defined.

Lemma child_of_spec (dir q : list string) (name : string) :
  Disk.child_of dir q = Some name ↔ q = Disk.path_join dir name.
Proof.
  unfold Disk.child_of. split.
  - destruct (last q) as [n|]; [|discriminate].
    destruct (bool_decide (q = Disk.path_join dir n)) eqn:E; [|discriminate].
    intros [= <-]. apply bool_decide_eq_true in E. exact E.
  - intros ->. unfold Disk.path_join. rewrite last_snoc.
    rewrite bool_decide_eq_true_2 by reflexivity. reflexivity.
Qed.

(** [listdir] returns the names of the entries directly below the
    directory. *)
Lemma listdir_In (disk : Disk.fs) (dir names : list string) (name : string) :
  Disk.listdir disk dir = Ok names →
  In name names ↔ is_Some (disk !! Disk.path_join dir name).
Proof.
  unfold Disk.listdir. destruct (Disk.is_dir disk dir); [|discriminate].
  intros [= <-]. rewrite <- list_elem_of_In, list_elem_of_omap. split.
  - intros (q & Hq & Hc). apply child_of_spec in Hc as ->.
    apply list_elem_of_In, in_map_iff in Hq as ([q x] & Hfst & Hin).
    cbn [fst] in Hfst. subst q.
    apply list_elem_of_In, elem_of_map_to_list in Hin. eauto.
  - intros [x Hx]. exists (Disk.path_join dir name). split.
    + apply list_elem_of_In, in_map_iff.
      exists (Disk.path_join dir name, x). split; [reflexivity|].
      apply list_elem_of_In, elem_of_map_to_list, Hx.
    + apply child_of_spec. reflexivity.
Qed.

Lemma read_text_file (disk : Disk.fs) (p : list string) (content : string) :
  Disk.read_text disk p = Ok content ↔ disk !! p = Some (Disk.File content).
Proof.
  unfold Disk.read_text. destruct (disk !! p) as [[c|]|]; split;
    intros H; try discriminate H; injection H as ->; reflexivity.
Qed.

Lemma read_after_create (disk disk' : Disk.fs) (file : list string)
    (default_text : string) :
  Disk.create_word_lists disk = Ok disk' →
  In (file, default_text)
    [(pos_file, Files.POSITIVE_WORDS_text);
     (neg_file, Files.NEGATIVE_WORDS_text);
     (stop_file, Files.STOPWORDS_text)] →
  Disk.read_text disk' file
  = match disk !! file with
    | Some Disk.Dir => Raise (ExternalError "FileNotFoundError")
    | _ => Ok (text_or_default disk file default_text)
    end.
Proof.
  intros H Hin. unfold Disk.read_text, text_or_default.
  rewrite (create_word_lists_lookup_file _ _ _ _ H Hin).
  destruct (disk !! file) as [[c|]|]; reflexivity.
Qed.

Lemma default_line_sets :
  Files.line_set Files.POSITIVE_WORDS_text = list_to_set Lexicon.POSITIVE_WORDS
  ∧ Files.line_set Files.NEGATIVE_WORDS_text = list_to_set Lexicon.NEGATIVE_WORDS
  ∧ Files.line_set Files.STOPWORDS_text = list_to_set Lexicon.STOPWORDS.
Proof.
  unfold Files.line_set.
  assert (Hp : Files.str_splitlines Files.POSITIVE_WORDS_text
               = Lexicon.POSITIVE_WORDS) by (vm_compute; reflexivity).
  assert (Hn : Files.str_splitlines Files.NEGATIVE_WORDS_text
               = Lexicon.NEGATIVE_WORDS) by (vm_compute; reflexivity).
  assert (Hs : Files.str_splitlines Files.STOPWORDS_text
               = Lexicon.STOPWORDS) by (vm_compute; reflexivity).
  rewrite Hp, Hn, Hs. auto.
Qed.

Lemma load_lexicon_parts (disk disk' : Disk.fs)
    (stop_words positive_words negative_words : gset string) :
  Disk.load_lexicon disk
  = Ok (disk', (stop_words, positive_words, negative_words)) →
  Disk.create_word_lists disk = Ok disk'
  ∧ stop_words
    = Files.load_stopwords Disk.path_join (Disk.listdir disk')
        (Disk.read_text disk') Disk.stopwords_path
  ∧ (positive_words, negative_words)
    = Files.load_master_dictionary Disk.path_join (Disk.read_text disk')
        Disk.master_dict_path.
Proof.
  unfold Disk.load_lexicon. intros H.
  destruct (Disk.create_word_lists disk) as [d|e]; [|discriminate H].
  cbn [mbind result_bind bind] in H.
  destruct (Files.load_master_dictionary Disk.path_join (Disk.read_text d)
              Disk.master_dict_path) as [p n] eqn:E.
  injection H as <- <- <- <-. rewrite E. auto.
Qed.



(** What [create_word_lists] leaves directly below the stop word
    directory: the entries that were there, and stopwords.txt. *)
Lemma stopword_entries_after_create (disk disk' : Disk.fs) (name : string) :
  Disk.create_word_lists disk = Ok disk' →
  disk' !! Disk.path_join Disk.stopwords_path name
  = if bool_decide (name = "stopwords.txt")
    then match disk !! stop_file with
         | Some x => Some x
         | None => Some (Disk.File Files.STOPWORDS_text)
         end
    else disk !! Disk.path_join Disk.stopwords_path name.
Proof.
  intros H. destruct (bool_decide (name = "stopwords.txt")) eqn:E.
  - apply bool_decide_eq_true in E as ->.
    apply (create_word_lists_lookup_file _ _ stop_file Files.STOPWORDS_text H).
    cbn. auto.
  - apply bool_decide_eq_false in E.
    destruct (create_word_lists_steps _ _ H) as (d1 & d2 & E1 & E2 & ->).
    rewrite !put_if_missing_other.
    + rewrite (makedirs_deeper _ _ _ _ E2) by (cbn; lia).
      apply (makedirs_deeper _ _ _ _ E1). cbn. lia.
    + discriminate.
    + discriminate.
    + intros [= ->]. apply E. reflexivity.
Qed.

Lemma is_dir_lookup (disk : Disk.fs) (p : list string) :
  p ≠ [] → disk !! p = Some Disk.Dir → Disk.is_dir disk p = true.
Proof.
  destruct p as [|name p]; [contradiction|].
  intros _ H. unfold Disk.is_dir. rewrite H. reflexivity.
Qed.

Lemma listdir_stopwords_after_create (disk disk' : Disk.fs) :
  Disk.create_word_lists disk = Ok disk' →
  ∃ names : list string, Disk.listdir disk' Disk.stopwords_path = Ok names.
Proof.
  intros H. destruct (create_word_lists_steps _ _ H) as (d1 & d2 & E1 & E2 & Hd).
  assert (Hdir : disk' !! Disk.stopwords_path = Some Disk.Dir).
  { apply (lookup_weaken d1); [apply (makedirs_from_dir _ _ _ [] E1); discriminate|].
    etransitivity; [apply (makedirs_from_subseteq _ _ _ _ E2)|].
    subst disk'.
    etransitivity; [|apply put_if_missing_subseteq].
    etransitivity; apply put_if_missing_subseteq. }
  unfold Disk.listdir.
  assert (Hne : Disk.stopwords_path ≠ []) by (vm_compute; discriminate).
  rewrite (is_dir_lookup _ _ Hne Hdir). eauto.
Qed.


